(** * fastTP: change detection, dependency graph, BFS features and ranking

    A shallow embedding of [fasttp.py].  Python dictionaries keyed by paths
    are [gmap string _], Python sets of paths are [gset string], Python
    integers are [Z], and a raised exception is [None].  Scores and the
    average distance are Python floats in the source; they are embedded as
    exact rationals [Q]: the quotient of two integers is kept exact and
    [1.0] is [1].  [rank] is the ranking with a model whose scores are
    numbers; [rank_float] is the same function with a model that may return
    not-a-number. *)

From Stdlib Require Import QArith.
From stdpp Require Import gmap strings list fin_maps sorting.
From Equations Require Import Equations.

Open Scope Z_scope.
#[local] Set Warnings "-clear-no-such-hyp".

(** ** Change detection: [load_hashes], [sha1_file] and the diff in [tp] *)

Definition FOLDER : string := ".fasttp".

Section change_detector.
(** The digest function, [os.path.join] and [json.load] come from the Python
    standard library.  [json_load] is [None] when parsing raises, and
    otherwise the mapping from path to digest that the file holds.  The file
    system maps the paths that can be opened to their content. *)
Variable sha1 : string → string.
Variable join : string → string → string.
Variable json_load : string → option (gmap string string).
Variable fs : gmap string string.

(** [None] when [open] raises. *)
Definition sha1_file (path : string) : option string :=
  sha1 <$> fs !! path.

(** The [try] block covers both [open] and [load]; any exception yields the
    empty dictionary. *)
Definition load_hashes (path : string) : gmap string string :=
  match fs !! join (join path FOLDER) "hashes.json" with
  | Some content =>
    match json_load content with
    | Some hashes => hashes
    | None => ∅
    end
  | None => ∅
  end.

(** The dictionary comprehension of [tp]: files are hashed in order, a later
    occurrence of a path overwrites an earlier one, and the first file that
    cannot be read aborts the run. *)
Fixpoint hash_files (project_folder : string) (files : list string)
    (acc : gmap string string) : option (gmap string string) :=
  match files with
  | [] => Some acc
  | file :: rest =>
    match sha1_file (join project_folder file) with
    | Some hash => hash_files project_folder rest (<[file := hash]> acc)
    | None => None
    end
  end.

(** The set comprehension of [tp] that builds [changed]. *)
Definition changed_files (old_hashes new_hashes : gmap string string)
    : gset string :=
  dom (filter (λ kv, kv.1 ∉ dom old_hashes
                     ∨ new_hashes !! kv.1 ≠ old_hashes !! kv.1) new_hashes).

(** Lines 106-109 of [tp]: the new hashes and the change set. *)
Definition tp_changed (project_folder : string)
    (test_files source_files : list string)
    : option (gmap string string * gset string) :=
  let old_hashes := load_hashes project_folder in
  match hash_files project_folder (test_files ++ source_files) ∅ with
  | Some new_hashes => Some (new_hashes, changed_files old_hashes new_hashes)
  | None => None
  end.

End change_detector.

(** ** Dependency graph: [get_dependencies] *)

(** An element of the list that the extractor attaches to a file:
    [(path, ext, src)]. *)
Definition item : Type := string * string * string.

(** The value the extractor stores for a file: [(deps, items)]. *)
Definition entry : Type := list string * list item.

(** [files[dep]]; [None] is [KeyError].  The extractor's dictionary is kept
    as the list of its items in iteration order. *)
Fixpoint files_lookup (files : list (string * entry)) (dep : string)
    : option entry :=
  match files with
  | [] => None
  | (key, value) :: rest =>
    if decide (key = dep) then Some value else files_lookup rest dep
  end.

Section graph_builder.
Variable Profile : Type.
Variable extract : Profile → list string → list (string * entry) * Z.
Variable relpath : string → string → string.

(** The two inner loops: every dependency is replaced by the relative paths
    of all items of the file it names. *)
Definition resolve (files : list (string * entry)) (project_folder : string)
    (deps : list string) : option (list string) :=
  match mapM (files_lookup files) deps with
  | Some found =>
    Some (concat (map (λ value : entry,
                         map (λ it : item, relpath it.1.1 project_folder)
                             value.2) found))
  | None => None
  end.

(** The loop over [items] of one file that has dependencies. *)
Fixpoint add_items (files : list (string * entry)) (project_folder : string)
    (deps : list string) (items : list item)
    (dependencies : gmap string (list string))
    : option (gmap string (list string)) :=
  match items with
  | [] => Some dependencies
  | (path1, ext1, src1) :: rest =>
    match resolve files project_folder deps with
    | Some edges =>
      add_items files project_folder deps rest
        (<[relpath path1 project_folder := edges]> dependencies)
    | None => None
    end
  end.

(** The loop over [files.values()]. *)
Fixpoint add_files (files : list (string * entry)) (project_folder : string)
    (values : list (string * entry))
    (dependencies : gmap string (list string))
    : option (gmap string (list string)) :=
  match values with
  | [] => Some dependencies
  | (_, (deps, items)) :: rest =>
    match deps with
    | [] => add_files files project_folder rest dependencies
    | _ :: _ =>
      match add_items files project_folder deps items dependencies with
      | Some dependencies' =>
        add_files files project_folder rest dependencies'
      | None => None
      end
    end
  end.

(** An entry of [values] that has the dependencies [deps] has an item whose
    relative path is [path]: the loop writes [dependencies[path]] for it. *)
Definition written_by (project_folder : string)
    (values : list (string * entry)) (path : string) (deps : list string)
    : Prop :=
  ∃ key items (it : item),
    (key, (deps, items)) ∈ values ∧ deps ≠ [] ∧ it ∈ items
    ∧ relpath it.1.1 project_folder = path.

Definition get_dependencies (profile : Profile) (inputs : list string)
    (project_folder : string) : option (gmap string (list string)) :=
  let '(files, count) := extract profile inputs in
  add_files files project_folder files ∅.

End graph_builder.

(** ** Feature extraction: [bfs_features] *)

(** The three values returned by [bfs_features]. *)
Record FeatureVector := mkFeatureVector {
  changed_reachable_count : Z;
  min_distance : Z;
  avg_distance : Q
}.

(** The local variables of [bfs_features] that the [while] loop updates. *)
Record bfs_state := mkBfs {
  neighbors : list (string * Z);
  visited : gset string;
  number_changed_dep : Z;
  len_shortest_path : Z;
  avg_len_shortest_paths : Z
}.

Definition sentinel : Z := 999999.

(** State on entry to the loop: the queue holds [(test, 0)]. *)
Definition bfs_init (test : string) : bfs_state :=
  mkBfs [(test, 0)] ∅ 0 sentinel 0.

(** One execution of the loop body; [None] when the queue is empty, which
    is when the [while] condition is false. *)
Definition bfs_step (dependencies : gmap string (list string))
    (changed : gset string) (st : bfs_state) : option bfs_state :=
  match neighbors st with
  | [] => None
  | (neighbor, dist) :: rest =>
    if decide (neighbor ∈ visited st) then
      Some (mkBfs rest (visited st) (number_changed_dep st)
              (len_shortest_path st) (avg_len_shortest_paths st))
    else
      let visited' := {[neighbor]} ∪ visited st in
      let '(n, m, a) :=
        if decide (neighbor ∈ changed) then
          (number_changed_dep st + 1,
           (if dist <? len_shortest_path st then dist
            else len_shortest_path st),
           avg_len_shortest_paths st + dist)
        else
          (number_changed_dep st, len_shortest_path st,
           avg_len_shortest_paths st) in
      let queue' :=
        match dependencies !! neighbor with
        | Some deps => rest ++ map (λ dep, (dep, dist + 1)) deps
        | None => rest
        end in
      Some (mkBfs queue' visited' n m a)
  end.

(** Edges still to be expanded: every key of the graph that has not been
    visited yet weighs one plus the length of its dependency list. *)
Definition pending_weight (dependencies : gmap string (list string))
    (seen : gset string) : nat :=
  sum_list_with (λ kv, S (length kv.2))
    (map_to_list (filter (λ kv, kv.1 ∉ seen) dependencies)).

(** The quantity that every execution of the loop body decreases. *)
Definition bfs_measure (dependencies : gmap string (list string))
    (st : bfs_state) : nat :=
  length (neighbors st) + pending_weight dependencies (visited st).

(** Every execution of the loop body decreases [bfs_measure]; this is what
    makes the [while] loop a total function. *)
Lemma bfs_step_decreases (dependencies : gmap string (list string))
    (changed : gset string) st st' :
  bfs_step dependencies changed st = Some st' →
  (bfs_measure dependencies st' < bfs_measure dependencies st)%nat.
Proof.
  intros Hstep.
  assert (Hgap : ∀ seen neighbor,
    neighbor ∉ seen →
    (pending_weight dependencies ({[neighbor]} ∪ seen)
     + match dependencies !! neighbor with
       | Some deps => S (length deps)
       | None => 0
       end = pending_weight dependencies seen)%nat).
  { intros seen neighbor Hnew. unfold pending_weight.
    assert (Hdel : filter (λ kv, kv.1 ∉ {[neighbor]} ∪ seen) dependencies
                   = delete neighbor
                       (filter (λ kv, kv.1 ∉ seen) dependencies)).
    { apply map_eq. intros k. rewrite lookup_delete. case_decide as Hk.
      - subst k. apply map_lookup_filter_None. right. intros x _. simpl.
        rewrite elem_of_union, elem_of_singleton. tauto.
      - rewrite !map_lookup_filter.
        destruct (dependencies !! k); simpl; [|done].
        repeat case_guard; simpl in *; try done;
          rewrite elem_of_union, elem_of_singleton in *;
          intuition congruence. }
    rewrite Hdel.
    destruct (dependencies !! neighbor) as [deps|] eqn:Hdeps.
    - assert (Hin : filter (λ kv, kv.1 ∉ seen) dependencies !! neighbor
                    = Some deps) by (by apply map_lookup_filter_Some).
      apply map_to_list_delete in Hin.
      rewrite <- (sum_list_with_Permutation_proper _ _ _ Hin). simpl. lia.
    - rewrite delete_id by (apply map_lookup_filter_None; by left). lia. }
  revert Hstep. unfold bfs_step, bfs_measure.
  destruct st as [queue seen n m a]; simpl.
  destruct queue as [|[neighbor dist] rest]; [done|].
  case_decide as Hseen; [intros [= <-]; simpl; lia|].
  specialize (Hgap seen neighbor Hseen).
  destruct (dependencies !! neighbor) as [deps|];
    destruct (decide (neighbor ∈ changed)); intros [= <-]; simpl;
    rewrite ?length_app, ?length_map; lia.
Qed.

Definition inspect {A} (a : A) : {b | a = b} := exist _ a eq_refl.

(** The [while neighbors:] loop. *)
Equations? bfs_while (dependencies : gmap string (list string))
    (changed : gset string) (st : bfs_state) : bfs_state
    by wf (bfs_measure dependencies st) lt :=
  bfs_while dependencies changed st
    with inspect (bfs_step dependencies changed st) := {
    | exist _ (Some st') Hstep => bfs_while dependencies changed st'
    | exist _ None _ => st }.
Proof. eapply bfs_step_decreases; eassumption. Qed.

(** The code after the loop: the average, or the sentinel left in
    [len_shortest_path] when nothing was counted. *)
Definition bfs_finish (st : bfs_state) : FeatureVector :=
  let avg :=
    if decide (number_changed_dep st = 0) then
      inject_Z (len_shortest_path st)
    else
      Qdiv (inject_Z (avg_len_shortest_paths st))
           (inject_Z (number_changed_dep st))
  in
  mkFeatureVector (number_changed_dep st) (len_shortest_path st) avg.

Definition bfs_features (test : string)
    (dependencies : gmap string (list string)) (changed : gset string)
    : FeatureVector :=
  bfs_finish (bfs_while dependencies changed (bfs_init test)).

(** [n] executions of the loop body, stopping early when the queue is
    empty. *)
Fixpoint bfs_iterate (dependencies : gmap string (list string))
    (changed : gset string) (n : nat) (st : bfs_state) : bfs_state :=
  match n with
  | O => st
  | S k =>
    match bfs_step dependencies changed st with
    | Some st' => bfs_iterate dependencies changed k st'
    | None => st
    end
  end.

(** An edge of the graph, and the nodes a traversal can reach. *)
Definition edge (dependencies : gmap string (list string))
    (x y : string) : Prop :=
  ∃ deps, dependencies !! x = Some deps ∧ y ∈ deps.

Definition reachable (dependencies : gmap string (list string))
    : string → string → Prop :=
  rtc (edge dependencies).

(** ** Ranking: [rank] *)

(** [<] on [(score, test)] tuples: the first components decide unless they
    are equal, and then the strings do, compared character by character by
    code as Python compares [str]. *)
Definition tuple_lt (p q : Q * string) : bool :=
  match Qcompare p.1 q.1 with
  | Lt => true
  | Eq => String.ltb p.2 q.2
  | Gt => false
  end.

(** [sorted(_, reverse=True)]: descending, and elements that compare equal
    keep their relative order. *)
Fixpoint insert_reverse (x : Q * string) (l : list (Q * string))
    : list (Q * string) :=
  match l with
  | [] => [x]
  | y :: l' =>
    if tuple_lt x y then y :: insert_reverse x l' else x :: y :: l'
  end.

Definition sorted_reverse (l : list (Q * string)) : list (Q * string) :=
  foldr insert_reverse [] l.

(** [model.predict] followed by [v[0].item()] on every row is [predict]. *)
Definition rank (predict : list FeatureVector → list Q)
    (tests : list string) (dependencies : gmap string (list string))
    (changed : gset string) : list (Q * string) :=
  let features :=
    map (λ test, bfs_features test dependencies changed) tests in
  let scores :=
    map (λ vt : Q * string, if decide (vt.2 ∈ changed) then 1%Q else vt.1)
        (zip (predict features) tests) in
  let ranked := zip scores tests in
  sorted_reverse ranked.

(** The order the ranked list is in: a pair is followed only by pairs with a
    smaller score, or an equal score and a path that is not greater. *)
Definition ranks_before (p q : Q * string) : Prop :=
  (q.1 < p.1)%Q ∨ (p.1 == q.1 ∧ String.leb q.2 p.2 = true).

(** ** Ranking when a score may be not-a-number *)

(** What comparisons see of a Python float: a number, or not-a-number. *)
Inductive pyfloat : Type :=
| Num (q : Q)
| NaN.

Definition is_nan (x : pyfloat) : bool :=
  match x with
  | Num _ => false
  | NaN => true
  end.

(** [<=] and [==] on floats: both are false as soon as one side is
    not-a-number. *)
Definition float_le (x y : pyfloat) : Prop :=
  match x, y with
  | Num a, Num b => (a <= b)%Q
  | _, _ => False
  end.

Definition float_eq (x y : pyfloat) : Prop :=
  match x, y with
  | Num a, Num b => (a == b)%Q
  | _, _ => False
  end.

(** [<] on [(score, test)] tuples whose score is a float.  Between two
    numbers it is [tuple_lt].  When a score is not-a-number the first items
    are not [==], so [<] on them decides, and it is false.  (The scores of
    two tuples of [rank] are never one and the same float object: [item()]
    makes a new one for every row.) *)
Definition tuple_lt_float (p q : pyfloat * string) : bool :=
  match p.1, q.1 with
  | Num a, Num b => tuple_lt (a, p.2) (b, q.2)
  | _, _ => false
  end.

(** A [(score, test)] tuple whose score is a number. *)
Definition number_pair (p : Q * string) : pyfloat * string :=
  (Num p.1, p.2).

(** What is used of the built-in [sorted(_, reverse=True)] on a list of
    [(score, test)] tuples: the result always holds the items of the input,
    and when every score is a number it is the stable descending sort
    [sorted_reverse].  On the other lists [<] is not an order, and what the
    built-in returns for them is left open. *)
Definition sorted_contract
    (sorted : list (pyfloat * string) → list (pyfloat * string)) : Prop :=
  (∀ l, sorted l ≡ₚ l)
  ∧ (∀ l, sorted (map number_pair l) = map number_pair (sorted_reverse l)).

(** One function that meets the contract: insertion from the right with
    [tuple_lt_float]. *)
Fixpoint insert_reverse_float (x : pyfloat * string)
    (l : list (pyfloat * string)) : list (pyfloat * string) :=
  match l with
  | [] => [x]
  | y :: l' =>
    if tuple_lt_float x y then y :: insert_reverse_float x l'
    else x :: y :: l'
  end.

Definition sorted_reverse_float (l : list (pyfloat * string))
    : list (pyfloat * string) :=
  foldr insert_reverse_float [] l.

(** [rank] with a model that may return not-a-number; [sorted] is the
    built-in with [reverse=True]. *)
Definition rank_float
    (sorted : list (pyfloat * string) → list (pyfloat * string))
    (predict : list FeatureVector → list pyfloat)
    (tests : list string) (dependencies : gmap string (list string))
    (changed : gset string) : list (pyfloat * string) :=
  let features :=
    map (λ test, bfs_features test dependencies changed) tests in
  let scores :=
    map (λ vt : pyfloat * string,
           if decide (vt.2 ∈ changed) then Num 1 else vt.1)
        (zip (predict features) tests) in
  let ranked := zip scores tests in
  sorted ranked.

(** The order that the specification describes: scores do not increase
    along the list, and of two pairs with equal scores the one with the
    greater path comes first. *)
Definition ranked_descending (ranked : list (pyfloat * string)) : Prop :=
  ∀ (i j : nat) p q,
    (i < j)%nat → ranked !! i = Some p → ranked !! j = Some q →
    float_le q.1 p.1 ∧ (float_eq p.1 q.1 → String.leb q.2 p.2 = true).

(** ** Graphs and inputs used in the examples *)

Definition diamond : gmap string (list string) :=
  {[ "A" := ["S1"; "S2"]; "S1" := ["S3"]; "S2" := ["S3"] ]}.

Definition cycle : gmap string (list string) :=
  {[ "A" := ["B"]; "B" := ["A"] ]}.

(** Hashes of a previous run and of the current one: [a.py] is unchanged,
    [b.py] has new content and [c.py] is new. *)
Definition example_old_hashes : gmap string string :=
  {[ "a.py" := "11"; "b.py" := "22" ]}.

Definition example_new_hashes : gmap string string :=
  {[ "a.py" := "11"; "b.py" := "23"; "c.py" := "33" ]}.

(** A project folder [p] with two files and no [.fasttp/hashes.json]. *)
Definition example_fs : gmap string string :=
  {[ "p/test_a.py" := "assert a"; "p/a.py" := "a = 1" ]}.

Definition example_join (a b : string) : string := a +:+ "/" +:+ b.

(** What an extractor may return: the test module imports [m], and [m] is
    realised by two source files. *)
Definition example_files : list (string * entry) :=
  [ ("test_m", (["m"], [("p/tests/test_m.py", "py", "tests")]));
    ("m", ([], [("p/src/m.py", "py", "src"); ("p/lib/m.py", "py", "lib")])) ].

(** [relpath] for paths that lie under [start]. *)
Definition example_relpath (path start : string) : string :=
  String.substring (String.length start + 1)
    (String.length path - (String.length start + 1)) path.

(** ** Shortest paths: what [bfs_features] computes *)

(** [d] is the number of edges of a shortest path from [test] to [y]. *)
Definition shortest (dependencies : gmap string (list string))
    (test y : string) (d : nat) : Prop :=
  nsteps (edge dependencies) d test y
  ∧ ∀ k, nsteps (edge dependencies) k test y → (d ≤ k)%nat.

(** The feature vector that a table of distances stands for: how many
    entries, the least distance or the sentinel if that is smaller, and the
    mean distance. *)
Definition features_of_distances (distances : gmap string nat)
    : FeatureVector :=
  let n := Z.of_nat (size distances) in
  let m := foldr Z.min sentinel
             (map (λ kv, Z.of_nat kv.2) (map_to_list distances)) in
  let total := Z.of_nat (sum_list_with snd (map_to_list distances)) in
  mkFeatureVector n m
    (if decide (n = 0) then inject_Z m
     else Qdiv (inject_Z total) (inject_Z n)).

(** The distances in the queue never decrease and never exceed the first
    one by more than 1. *)
Definition level_sorted (dists : list Z) : Prop :=
  match dists with
  | [] => True
  | d :: _ => StronglySorted Z.le dists ∧ Forall (λ e, e ≤ d + 1) dists
  end.

(** What the traversal keeps true: the queue is sorted by level and holds
    path lengths; the test is seen or queued; every successor of a visited
    node is seen or queued no later than one level after it; and the three
    accumulators summarise the shortest distances of the changed nodes
    visited so far. *)
Definition bfs_invariant (dependencies : gmap string (list string))
    (changed : gset string) (test : string) (st : bfs_state) : Prop :=
  level_sorted (neighbors st).*2
  ∧ Forall (λ nd, ∃ k : nat,
              nd.2 = Z.of_nat k ∧ nsteps (edge dependencies) k test nd.1)
      (neighbors st)
  ∧ (test ∈ visited st ∨ (test, 0) ∈ neighbors st)
  ∧ (∀ u (k : nat) y,
       u ∈ visited st → nsteps (edge dependencies) k test u →
       edge dependencies u y →
       y ∈ visited st
       ∨ ∃ d', (y, d') ∈ neighbors st ∧ d' ≤ Z.of_nat k + 1)
  ∧ ∃ distances : gmap string nat,
      dom distances = visited st ∩ changed
      ∧ (∀ y d, distances !! y = Some d → shortest dependencies test y d)
      ∧ number_changed_dep st = Z.of_nat (size distances)
      ∧ len_shortest_path st
        = foldr Z.min sentinel
            (map (λ kv, Z.of_nat kv.2) (map_to_list distances))
      ∧ avg_len_shortest_paths st
        = Z.of_nat (sum_list_with snd (map_to_list distances)).

(** A table of the shortest distances from the test to the changed nodes
    it reaches. *)
Definition distance_table (dependencies : gmap string (list string))
    (changed : gset string) (test : string) (distances : gmap string nat)
    : Prop :=
  ∀ y d, distances !! y = Some d
         ↔ y ∈ changed ∧ shortest dependencies test y d.

(** ** Persisted state: [fasttp_dir], [dump_json], [save_jsons] *)

(** What the functions that write see of the file system: the content of
    the files and the directories that exist. *)
Record World := mkWorld {
  w_files : gmap string string;
  w_dirs : gset string
}.

Section persistence.
(** [os.path.join]; whether the system lets [makedirs] create a directory
    and [open(_, 'w')] create or truncate a file; and [json.dump] for the
    four kinds of object that are saved. *)
Variable join : string → string → string.
Variable makedirs_ok : string → bool.
Variable open_ok : string → bool.
Variable dump_ranked : list (Q * string) → string.
Variable dump_dependencies : gmap string (list string) → string.
Variable dump_changed : list string → string.
Variable dump_hashes : gmap string string → string.

(** [os.path.exists]. *)
Definition path_exists (w : World) (path : string) : bool :=
  bool_decide (path ∈ w_dirs w ∨ path ∈ dom (w_files w)).

(** The directory is created when nothing has its name; a failure to
    create it is swallowed, and the path is returned in any case. *)
Definition fasttp_dir (w : World) (path : string) : string * World :=
  let path := join path FOLDER in
  if path_exists w path then (path, w)
  else if makedirs_ok path
       then (path, mkWorld (w_files w) ({[path]} ∪ w_dirs w))
       else (path, w).

(** [open(join(dir, name), 'w')] followed by writing [content]: [None] when
    [open] raises, which it does when [dir] is not a directory, when the
    path names a directory, or when the system refuses. *)
Definition write_file (w : World) (dir name content : string)
    : option World :=
  let path := join dir name in
  if bool_decide (dir ∈ w_dirs w ∧ path ∉ w_dirs w) && open_ok path
  then Some (mkWorld (<[path := content]> (w_files w)) (w_dirs w))
  else None.

(** [dump_json] with the object already serialised; the boolean tells
    whether it returned, and the world is the one it leaves behind either
    way. *)
Definition dump_json (w : World) (path name content : string)
    : bool * World :=
  let '(dir, w1) := fasttp_dir w path in
  match write_file w1 dir (name +:+ ".json") content with
  | Some w2 => (true, w2)
  | None => (false, w1)
  end.

(** The four files are written in turn; the first failure ends the call. *)
Definition save_jsons (w : World) (project_folder : string)
    (ranked : list (Q * string)) (dependencies : gmap string (list string))
    (changed : gset string) (new_hashes : gmap string string)
    : bool * World :=
  let '(ok1, w1) :=
    dump_json w project_folder "ranked" (dump_ranked ranked) in
  if negb ok1 then (false, w1) else
  let '(ok2, w2) :=
    dump_json w1 project_folder "dependencies"
      (dump_dependencies dependencies) in
  if negb ok2 then (false, w2) else
  let '(ok3, w3) :=
    dump_json w2 project_folder "changed"
      (dump_changed (elements changed)) in
  if negb ok3 then (false, w3) else
  dump_json w3 project_folder "hashes" (dump_hashes new_hashes).

End persistence.

(** ** File discovery: [get_files] *)

(** What [os.walk] finds below a directory: its sub-directories by name,
    each with what is below it, and the names of its files, both in the
    order of the listing. *)
#[local] Unset Elimination Schemes.
Inductive dirtree : Type :=
| DirTree (dirs : list (string * dirtree)) (names : list string).
#[local] Set Elimination Schemes.

(** The character ['.']. *)
Definition dot : Ascii.ascii :=
  Eval cbv in match "." with String c _ => c | EmptyString => Ascii.zero end.

(** [d[0] == '.']; the names in a listing are never empty. *)
Definition hidden (d : string) : bool :=
  match d with
  | String c _ => Ascii.eqb c dot
  | EmptyString => false
  end.

(** [name.rsplit('.', 1)] when it has two parts: the text before the last
    dot and the text after it; [None] when the name has no dot. *)
Fixpoint rsplit_dot (name : string) : option (string * string) :=
  match name with
  | EmptyString => None
  | String c rest =>
    match rsplit_dot rest with
    | Some (stem, ext) => Some (String c stem, ext)
    | None => if Ascii.eqb c dot then Some (EmptyString, rest) else None
    end
  end.

Fixpoint has_dot (s : string) : bool :=
  match s with
  | EmptyString => false
  | String c rest => Ascii.eqb c dot || has_dot rest
  end.

Section file_discovery.
Variable join : string → string → string.
Variable Profile : Type.
(** [ext in profile]. *)
Variable in_profile : string → Profile → bool.
(** The tree at a path; [None] when the path is not a directory, and then
    [os.walk] yields nothing. *)
Variable listing : string → option dirtree.

(** The files of one directory that are yielded. *)
Definition matching (root : string) (profile : Profile)
    (names : list string) : list string :=
  flat_map (λ name,
              match rsplit_dot name with
              | Some (_, ext) =>
                if in_profile ext profile then [join root name] else []
              | None => []
              end) names.

(** The traversal is top-down, so that removing the hidden directories from
    [dirs] keeps [os.walk] out of them. *)
Fixpoint walk_files (profile : Profile) (root : string) (tree : dirtree)
    : list string :=
  match tree with
  | DirTree dirs names =>
    matching root profile names
    ++ flat_map (λ entry : string * dirtree,
                   if hidden entry.1 then []
                   else walk_files profile (join root entry.1) entry.2) dirs
  end.

Definition get_files (path : string) (profile : Profile) : list string :=
  match listing path with
  | Some tree => walk_files profile path tree
  | None => []
  end.

End file_discovery.

(** [name] is a file of the directory reached from the top of [tree]
    through the directories [ds]. *)
Inductive in_tree : dirtree → list string → string → Prop :=
| in_tree_here dirs names name :
    name ∈ names → in_tree (DirTree dirs names) [] name
| in_tree_below dirs names d sub ds name :
    (d, sub) ∈ dirs → in_tree sub ds name →
    in_tree (DirTree dirs names) (d :: ds) name.

(** ** The pipeline: [tp] and the numbers of [log] *)

Section pipeline.
(** The collaborators of [tp]: the functions of [os.path], the digest,
    [json.load], the files that can be read and the trees that [os.walk]
    finds, [dext], and [keras.models.load_model], which is [None] when it
    raises and otherwise what [predict] computes. *)
Variable join : string → string → string.
Variable relpath : string → string → string.
Variable sha1 : string → string.
Variable json_load : string → option (gmap string string).
Variable fs : gmap string string.
Variable listing : string → option dirtree.
Variable Profile : Type.
Variable in_profile : string → Profile → bool.
Variable get_profile : string → Profile.
Variable extract : Profile → list string → list (string * entry) * Z.
Variable load_model : string → option (list FeatureVector → list Q).

Definition tp (language project_folder test_folder source_folder : string)
    : option (list (Q * string) * gmap string (list string) * gset string
              * gmap string string * list string * list string) :=
  let profile := get_profile language in
  let test_folder := join project_folder test_folder in
  let source_folder := join project_folder source_folder in
  let test_files :=
    map (λ file, relpath file project_folder)
        (get_files join Profile in_profile listing test_folder profile) in
  let source_files :=
    map (λ file, relpath file project_folder)
        (get_files join Profile in_profile listing source_folder profile) in
  match tp_changed sha1 join json_load fs project_folder test_files
          source_files with
  | None => None
  | Some (new_hashes, changed) =>
    let inputs :=
      if decide (test_folder ≠ source_folder)
      then [test_folder; source_folder] else [test_folder] in
    match get_dependencies Profile extract relpath profile inputs
            project_folder with
    | None => None
    | Some dependencies =>
      match load_model "model" with
      | None => None
      | Some model =>
        Some (rank model test_files dependencies changed, dependencies,
              changed, new_hashes, test_files, source_files)
      end
    end
  end.

End pipeline.

(** [D] of [log]: the lengths of all dependency lists, added up. *)
Definition count_dependencies (dependencies : gmap string (list string))
    : nat :=
  sum_list_with (λ kv, length kv.2) (map_to_list dependencies).

(** The four numbers that [log] prints: [T], [S], [C] and [D]. *)
Definition log (dependencies : gmap string (list string))
    (changed : gset string) (test_files source_files : list string)
    : Z * Z * Z * Z :=
  (Z.of_nat (length test_files), Z.of_nat (length source_files),
   Z.of_nat (size changed), Z.of_nat (count_dependencies dependencies)).

(** ** Further inputs used in the examples *)

(** A world in which [p] is an existing directory with one source file and
    one test file, and serialisers that [example_load] inverts on the
    hashes of that world. *)
Definition example_world : World :=
  mkWorld example_fs {["p"]}.

Definition example_dump_hashes (hashes : gmap string string) : string :=
  String.concat ";"
    (map (λ kv : string * string, kv.1 +:+ "=" +:+ kv.2)
         (map_to_list hashes)).

Definition example_load (content : string)
    : option (gmap string string) :=
  if decide (content = "a.py=a = 1;test_a.py=assert a")
  then Some {[ "test_a.py" := "assert a"; "a.py" := "a = 1" ]}
  else None.

(** A project with a test folder [t] and a source folder [s], not yet run
    on. *)
Definition example_project : gmap string string :=
  {[ "p/t/test_a.py" := "assert a"; "p/s/a.py" := "a = 1" ]}.

Definition example_listing (path : string) : option dirtree :=
  if decide (path = "p/t") then Some (DirTree [] ["test_a.py"; "notes"])
  else if decide (path = "p/s") then Some (DirTree [] ["a.py"])
  else None.

(** * Properties *)

(** ** The traversal loop *)

(** Case analysis of one execution of the loop body: the queue is not
    empty; the popped node was seen before, or it is new and is then changed
    or not, and a key of the graph or a leaf. *)
Ltac bfs_step_cases st Hstep :=
  lazymatch type of Hstep with
  | bfs_step ?graph ?chg _ = Some _ =>
    unfold bfs_step in Hstep;
    destruct st as [queue seen n m a]; simpl in *;
    destruct queue as [|[neighbor dist] rest]; [done|];
    destruct (decide (neighbor ∈ seen)) as [Hseen|Hseen];
    [|destruct (decide (neighbor ∈ chg)) as [Hchanged|Hchanged];
      destruct (graph !! neighbor) as [deps|] eqn:Hdeps];
    injection Hstep as <-; simpl
  end.

Section bfs_facts.
Variable dependencies : gmap string (list string).
Variable changed : gset string.

Lemma bfs_while_step st :
  bfs_while dependencies changed st
  = match bfs_step dependencies changed st with
    | Some st' => bfs_while dependencies changed st'
    | None => st
    end.
Proof.
  funelim (bfs_while dependencies changed st).
  - rewrite Hstep. reflexivity.
  - rewrite e. reflexivity.
Qed.

(** The loop exits exactly when the queue is empty. *)
Lemma bfs_step_None st :
  bfs_step dependencies changed st = None ↔ neighbors st = [].
Proof.
  unfold bfs_step. destruct (neighbors st) as [|[neighbor dist] rest].
  - done.
  - split; [|done]. repeat case_decide; repeat case_match; done.
Qed.

(** Whatever one execution of the loop body preserves holds when the loop
    exits, and the loop exits with an empty queue. *)
Lemma bfs_while_invariant (I : bfs_state → Prop) :
  (∀ st st', I st → bfs_step dependencies changed st = Some st' → I st') →
  ∀ st, I st →
    I (bfs_while dependencies changed st)
    ∧ neighbors (bfs_while dependencies changed st) = [].
Proof.
  intros Hpres st.
  remember (bfs_measure dependencies st) as k eqn:Hk.
  revert st Hk.
  induction k as [k IH] using lt_wf_ind. intros st -> Hst.
  rewrite bfs_while_step.
  destruct (bfs_step dependencies changed st) as [st'|] eqn:Hstep.
  - apply (IH (bfs_measure dependencies st')); eauto using bfs_step_decreases.
  - split; [done|]. by apply bfs_step_None.
Qed.

(** The loop is [bfs_iterate] run for at most [bfs_measure] rounds. *)
Lemma bfs_while_iterate st :
  ∃ n : nat,
    (n ≤ bfs_measure dependencies st)%nat
    ∧ bfs_step dependencies changed (bfs_iterate dependencies changed n st)
      = None
    ∧ bfs_while dependencies changed st
      = bfs_iterate dependencies changed n st.
Proof.
  remember (bfs_measure dependencies st) as k eqn:Hk.
  revert st Hk.
  induction k as [k IH] using lt_wf_ind. intros st ->.
  rewrite bfs_while_step.
  destruct (bfs_step dependencies changed st) as [st'|] eqn:Hstep.
  - pose proof (bfs_step_decreases _ _ _ _ Hstep) as Hlt.
    destruct (IH _ Hlt st' eq_refl) as (n & Hn & Hstop & Heq).
    exists (S n). simpl. rewrite Hstep. repeat split; [lia|done|done].
  - exists O. simpl. repeat split; [lia|done].
Qed.

(** Distances in the queue are never negative, the minimum stays between 0
    and the sentinel, it is the sentinel as long as nothing was counted, and
    the minimum times the count never exceeds the sum. *)
Lemma bfs_while_distances test :
  let st := bfs_while dependencies changed (bfs_init test) in
  0 ≤ number_changed_dep st
  ∧ 0 ≤ len_shortest_path st ≤ sentinel
  ∧ len_shortest_path st * number_changed_dep st ≤ avg_len_shortest_paths st
  ∧ (number_changed_dep st = 0 → len_shortest_path st = sentinel).
Proof.
  apply (bfs_while_invariant (λ st,
    Forall (λ nd, 0 ≤ nd.2) (neighbors st)
    ∧ 0 ≤ number_changed_dep st
    ∧ 0 ≤ len_shortest_path st ≤ sentinel
    ∧ len_shortest_path st * number_changed_dep st
      ≤ avg_len_shortest_paths st
    ∧ (number_changed_dep st = 0 → len_shortest_path st = sentinel))).
  - intros st st' (Hq & Hn & Hm & Hsum & Hzero) Hstep.
    bfs_step_cases st Hstep;
      apply Forall_cons in Hq as [Hdist Hq]; simpl in Hdist;
      (split; [rewrite ?Forall_app, ?Forall_map; repeat split; try done;
               apply Forall_true; simpl; lia|]);
      try done;
      destruct (Z.ltb_spec dist m); repeat split; try lia; nia.
  - unfold bfs_init, sentinel. simpl. repeat split; try lia.
    by repeat constructor.
Qed.

(** The traversal only ever handles nodes that are reachable from the
    test. *)
Lemma bfs_while_visits_reachable test x :
  x ∈ visited (bfs_while dependencies changed (bfs_init test)) →
  reachable dependencies test x.
Proof.
  revert x.
  apply (bfs_while_invariant (λ st,
    Forall (λ nd, reachable dependencies test nd.1) (neighbors st)
    ∧ ∀ x, x ∈ visited st → reachable dependencies test x)).
  - intros st st' (Hq & Hv) Hstep.
    bfs_step_cases st Hstep;
      apply Forall_cons in Hq as [Hnode Hq]; simpl in Hnode;
      (split; [|intros x Hx;
                rewrite ?elem_of_union, ?elem_of_singleton in Hx;
                destruct_or?; subst; auto]);
      rewrite ?Forall_app, ?Forall_map; try split; try done;
      apply Forall_forall; intros dep Hdep; simpl;
      (eapply rtc_r; [exact Hnode|]); by exists deps.
  - split; [|set_solver]. repeat constructor.
Qed.

(** When the loop exits, every reachable node has been visited. *)
Lemma bfs_while_visits_all test x :
  reachable dependencies test x →
  x ∈ visited (bfs_while dependencies changed (bfs_init test)).
Proof.
  intros Hreach.
  destruct (bfs_while_invariant (λ st,
    (test ∈ visited st ∨ test ∈ (neighbors st).*1)
    ∧ ∀ u v, u ∈ visited st → edge dependencies u v →
        v ∈ visited st ∨ v ∈ (neighbors st).*1)) with (st := bfs_init test)
    as [[Htest Hclosed] Hempty].
  - intros st st' (Htest & Hclosed) Hstep.
    bfs_step_cases st Hstep.
    all: rewrite ?fmap_app, <- ?list_fmap_compose.
    all: change (fst ∘ _) with (@id string); rewrite ?list_fmap_id.
    all: split; [set_solver|]; intros u v Hu Hedge.
    + destruct (Hclosed u v Hu Hedge); set_solver.
    + apply elem_of_union in Hu as [Hu|Hu].
      * apply elem_of_singleton in Hu as ->.
        destruct Hedge as (deps' & Hdeps' & Hv).
        rewrite Hdeps in Hdeps'. injection Hdeps' as <-. set_solver.
      * destruct (Hclosed u v Hu Hedge); set_solver.
    + apply elem_of_union in Hu as [Hu|Hu].
      * apply elem_of_singleton in Hu as ->.
        destruct Hedge as (deps' & Hdeps' & Hv). congruence.
      * destruct (Hclosed u v Hu Hedge); set_solver.
    + apply elem_of_union in Hu as [Hu|Hu].
      * apply elem_of_singleton in Hu as ->.
        destruct Hedge as (deps' & Hdeps' & Hv).
        rewrite Hdeps in Hdeps'. injection Hdeps' as <-. set_solver.
      * destruct (Hclosed u v Hu Hedge); set_solver.
    + apply elem_of_union in Hu as [Hu|Hu].
      * apply elem_of_singleton in Hu as ->.
        destruct Hedge as (deps' & Hdeps' & Hv). congruence.
      * destruct (Hclosed u v Hu Hedge); set_solver.
  - simpl. split; [set_solver|]. intros u v Hu. set_solver.
  - rewrite Hempty in Htest, Hclosed. simpl in *.
    revert x Hreach. apply rtc_ind_r; [set_solver|].
    intros u v _ Hedge IH.
    destruct (Hclosed u v IH Hedge) as [?|?]; set_solver.
Qed.


(** The counter is the number of visited nodes that are in the change
    set. *)
Lemma bfs_while_count test :
  let st := bfs_while dependencies changed (bfs_init test) in
  number_changed_dep st = Z.of_nat (size (visited st ∩ changed)).
Proof.
  apply (bfs_while_invariant (λ st,
    number_changed_dep st = Z.of_nat (size (visited st ∩ changed)))).
  - intros st st' Hcount Hstep.
    bfs_step_cases st Hstep; try done.
    1,2: replace (({[neighbor]} ∪ seen) ∩ changed)
           with ({[neighbor]} ∪ seen ∩ changed) by set_solver;
         rewrite size_union, size_singleton by set_solver; lia.
    all: replace (({[neighbor]} ∪ seen) ∩ changed)
           with (seen ∩ changed) by set_solver; done.
  - simpl. replace (∅ ∩ changed) with (∅ : gset string) by set_solver.
    by rewrite size_empty.
Qed.

End bfs_facts.

(** When the test itself is in the change set the first iteration records
    distance 0, and no later one can lower it. *)
Lemma bfs_while_changed_test dependencies changed test :
  test ∈ changed →
  len_shortest_path (bfs_while dependencies changed (bfs_init test)) = 0.
Proof.
  intros Htest. rewrite bfs_while_step.
  destruct (bfs_step dependencies changed (bfs_init test)) as [st1|] eqn:Hfirst;
    [|by apply bfs_step_None in Hfirst].
  apply (bfs_while_invariant dependencies changed (λ st,
    Forall (λ nd, 0 ≤ nd.2) (neighbors st) ∧ len_shortest_path st = 0)).
  - intros st st' (Hq & Hm) Hstep.
    bfs_step_cases st Hstep;
      apply Forall_cons in Hq as [Hdist Hq]; simpl in Hdist; subst m;
      (split; [rewrite ?Forall_app, ?Forall_map; repeat split; try done;
               apply Forall_true; simpl; lia|]);
      try done; by destruct (Z.ltb_spec dist 0); [lia|].
  - unfold bfs_step, bfs_init in Hfirst. simpl in Hfirst.
    rewrite decide_False in Hfirst by set_solver.
    rewrite decide_True in Hfirst by done.
    injection Hfirst as <-. simpl. split; [|done].
    destruct (dependencies !! test); [|constructor].
    simpl. rewrite Forall_map. by apply Forall_true.
Qed.

(** Every node reachable in [cycle] from ["A"] is ["A"] or ["B"]. *)
Lemma reachable_cycle x :
  reachable cycle "A" x → x = "A" ∨ x = "B".
Proof.
  revert x. apply rtc_ind_r; [by left|].
  intros u v _ (deps & Hdeps & Hv) [ -> | -> ]; vm_compute in Hdeps;
    injection Hdeps as <-; set_solver.
Qed.

(** ** Claims about [bfs_features] *)

(** C4: a changed node is counted once however many paths lead to it: the
    count is the number of nodes of the change set that are reachable from
    the test.  On the diamond A -> {S1, S2}, S1 -> S3, S2 -> S3 with only S3
    changed, the features are count 1, minimum distance 2 and average
    distance 2. *)
Theorem bfs_features_counts_once :
  (∀ test dependencies changed (nodes : gset string),
     (∀ x, x ∈ nodes ↔ reachable dependencies test x ∧ x ∈ changed) →
     changed_reachable_count (bfs_features test dependencies changed)
     = Z.of_nat (size nodes))
  ∧ bfs_features "A" diamond {["S3"]} = mkFeatureVector 1 2 2.
Proof.
  split; [|by vm_compute].
  intros test dependencies changed nodes Hnodes.
  unfold bfs_features. simpl. rewrite bfs_while_count. do 2 f_equal.
  apply set_eq. intros x. rewrite elem_of_intersection, Hnodes.
  split; intros [Hx ?]; (split; [|done]).
  - by apply bfs_while_visits_reachable in Hx.
  - by apply bfs_while_visits_all.
Qed.

Lemma bfs_features_counts_once_witness :
  changed_reachable_count (bfs_features "A" diamond {["S3"]})
  = Z.of_nat (size ({["S3"]} : gset string)).
Proof.
  apply (proj1 bfs_features_counts_once "A" diamond {["S3"]} {["S3"]}).
  intros x. rewrite elem_of_singleton. split; [intros ->|tauto].
  split; [|done].
  apply (rtc_l _ _ "S1"); [by exists ["S1"; "S2"]; split; [|set_solver]|].
  apply rtc_once. by exists ["S3"]; split; [|set_solver].
Defined.

(** C5: the traversal terminates on every graph, cyclic or not: after at
    most [bfs_measure] executions of the loop body the queue is empty, and
    [bfs_features] returns what the code after the loop makes of that state.
    On the graph A -> B -> A, with neither node changed, the traversal from A
    reports a count of 0. *)
Theorem bfs_features_terminates :
  (∀ test dependencies changed,
     ∃ n : nat,
       (n ≤ bfs_measure dependencies (bfs_init test))%nat
       ∧ bfs_step dependencies changed
           (bfs_iterate dependencies changed n (bfs_init test)) = None
       ∧ bfs_features test dependencies changed
         = bfs_finish (bfs_iterate dependencies changed n (bfs_init test)))
  ∧ (∀ changed : gset string,
       "A" ∉ changed → "B" ∉ changed →
       changed_reachable_count (bfs_features "A" cycle changed) = 0).
Proof.
  split.
  - intros test dependencies changed.
    destruct (bfs_while_iterate dependencies changed (bfs_init test))
      as (n & Hn & Hstop & Heq).
    exists n. unfold bfs_features. by rewrite Heq.
  - intros changed HA HB. unfold bfs_features. simpl.
    rewrite bfs_while_count.
    replace (visited (bfs_while cycle changed (bfs_init "A")) ∩ changed)
      with (∅ : gset string); [by rewrite size_empty|].
    symmetry. apply set_eq. intros x.
    rewrite elem_of_intersection, elem_of_empty. split; [|done].
    intros [Hx Hchanged].
    apply bfs_while_visits_reachable, reachable_cycle in Hx as [->| ->]; done.
Qed.

Lemma bfs_features_terminates_witness :
  changed_reachable_count (bfs_features "A" cycle {["C"]}) = 0.
Proof.
  apply (proj2 bfs_features_terminates {["C"]}).
  - by rewrite elem_of_singleton.
  - by rewrite elem_of_singleton.
Defined.

(** C6: when no node of the change set is reachable from the test (the test
    included), the count is 0 and both distances are the sentinel 999999. *)
Theorem bfs_features_unreachable test dependencies changed :
  (∀ x, reachable dependencies test x → x ∉ changed) →
  bfs_features test dependencies changed
  = mkFeatureVector 0 999999 (inject_Z 999999).
Proof.
  intros Hnone.
  pose proof (bfs_while_count dependencies changed test) as Hcount.
  pose proof (bfs_while_distances dependencies changed test)
    as (_ & _ & _ & Hzero).
  simpl in Hcount, Hzero.
  replace (visited (bfs_while dependencies changed (bfs_init test)) ∩ changed)
    with (∅ : gset string) in Hcount.
  - rewrite size_empty in Hcount. simpl in Hcount.
    specialize (Hzero Hcount).
    unfold bfs_features, bfs_finish.
    rewrite decide_True by done. by rewrite Hcount, Hzero.
  - symmetry. apply set_eq. intros x.
    rewrite elem_of_intersection, elem_of_empty. split; [|done].
    intros [Hx Hchanged]. eapply Hnone; [|done].
    by apply bfs_while_visits_reachable in Hx.
Qed.

Lemma bfs_features_unreachable_witness :
  bfs_features "A" cycle {["C"]}
  = mkFeatureVector 0 999999 (inject_Z 999999).
Proof.
  apply bfs_features_unreachable.
  intros x Hx. rewrite elem_of_singleton.
  by destruct (reachable_cycle x Hx) as [->| ->].
Defined.

(** C10: whenever something was counted, the minimum distance is not
    negative and does not exceed the average distance. *)
Theorem bfs_features_min_le_avg test dependencies changed :
  0 < changed_reachable_count (bfs_features test dependencies changed) →
  0 ≤ min_distance (bfs_features test dependencies changed)
  ∧ (inject_Z (min_distance (bfs_features test dependencies changed))
     <= avg_distance (bfs_features test dependencies changed))%Q.
Proof.
  unfold bfs_features. simpl. intros Hpos.
  pose proof (bfs_while_distances dependencies changed test)
    as (_ & Hmin & Hsum & _).
  simpl in Hmin, Hsum. split; [lia|].
  rewrite decide_False by lia.
  apply Qle_shift_div_l.
  - rewrite (Zlt_Qlt 0) in Hpos. exact Hpos.
  - rewrite <- inject_Z_mult, <- Zle_Qle. exact Hsum.
Qed.

Lemma bfs_features_min_le_avg_witness :
  0 ≤ min_distance (bfs_features "A" diamond {["S1"; "S3"]})
  ∧ (inject_Z (min_distance (bfs_features "A" diamond {["S1"; "S3"]}))
     <= avg_distance (bfs_features "A" diamond {["S1"; "S3"]}))%Q.
Proof.
  apply bfs_features_min_le_avg. by vm_compute.
Defined.

(** The scenarios of the specification, evaluated. *)
Example bfs_features_direct_dependency :
  bfs_features "A" {[ "A" := ["S2"] ]} {["S2"]} = mkFeatureVector 1 1 1.
Proof. by vm_compute. Qed.

Example bfs_features_two_distances :
  bfs_features "A" diamond {["S1"; "S3"]} = mkFeatureVector 2 1 (3 # 2).
Proof. by vm_compute. Qed.

Example bfs_features_self_loop :
  bfs_features "A" {[ "A" := ["A"; "A"] ]} {["A"]} = mkFeatureVector 1 0 0.
Proof. by vm_compute. Qed.

(** ** The order on [(score, test)] pairs *)

Lemma ascii_compare_lt_trans a b c :
  Ascii.compare a b = Lt → Ascii.compare b c = Lt → Ascii.compare a c = Lt.
Proof.
  unfold Ascii.compare. rewrite !N.compare_lt_iff. lia.
Qed.

Lemma string_compare_refl s : String.compare s s = Eq.
Proof.
  pose proof (String.compare_antisym s s) as H.
  by destruct (String.compare s s).
Qed.

Lemma string_compare_lt_trans s1 s2 s3 :
  String.compare s1 s2 = Lt → String.compare s2 s3 = Lt →
  String.compare s1 s3 = Lt.
Proof.
  revert s2 s3. induction s1 as [|a s1 IH]; intros [|b s2] [|c s3];
    simpl; try done.
  destruct (Ascii.compare a b) eqn:Hab; try done;
    destruct (Ascii.compare b c) eqn:Hbc; try done; intros H12 H23.
  - apply Ascii.compare_eq_iff in Hab as ->.
    apply Ascii.compare_eq_iff in Hbc as ->.
    assert (Ascii.compare c c = Eq) as ->
      by (unfold Ascii.compare; apply N.compare_refl).
    eauto.
  - apply Ascii.compare_eq_iff in Hab as ->. by rewrite Hbc.
  - apply Ascii.compare_eq_iff in Hbc as <-. by rewrite Hab.
  - by rewrite (ascii_compare_lt_trans _ _ _ Hab Hbc).
Qed.

Lemma string_leb_trans s1 s2 s3 :
  String.leb s1 s2 = true → String.leb s2 s3 = true →
  String.leb s1 s3 = true.
Proof.
  unfold String.leb.
  destruct (String.compare s1 s2) eqn:H12; try done;
    destruct (String.compare s2 s3) eqn:H23; try done; intros _ _.
  - apply String.compare_eq_iff in H12 as ->. by rewrite H23.
  - apply String.compare_eq_iff in H12 as ->. by rewrite H23.
  - apply String.compare_eq_iff in H23 as <-. by rewrite H12.
  - by rewrite (string_compare_lt_trans _ _ _ H12 H23).
Qed.

(** [p] is not less than [q] exactly when [p] may stand before [q]. *)
Lemma tuple_lt_false p q : tuple_lt p q = false ↔ ranks_before p q.
Proof.
  unfold tuple_lt, ranks_before, String.ltb, String.leb.
  rewrite (String.compare_antisym q.2 p.2).
  destruct (Qcompare p.1 q.1) eqn:Hcmp.
  - apply Qeq_alt in Hcmp.
    split.
    + intros Hlt. right. split; [done|].
      by destruct (String.compare p.2 q.2).
    + intros [Hlt|[_ Hle]].
      * rewrite Hcmp in Hlt. by apply Qlt_irrefl in Hlt.
      * by destruct (String.compare p.2 q.2).
  - apply Qlt_alt in Hcmp. split; [done|].
    intros [Hlt|[Heq _]].
    + destruct (Qlt_irrefl p.1). by apply Qlt_trans with q.1.
    + rewrite Heq in Hcmp. by apply Qlt_irrefl in Hcmp.
  - apply Qgt_alt in Hcmp. split; [by left|done].
Qed.

Lemma tuple_lt_true p q : tuple_lt p q = true → ranks_before q p.
Proof.
  unfold tuple_lt, ranks_before, String.ltb, String.leb.
  destruct (Qcompare p.1 q.1) eqn:Hcmp; [| |done].
  - apply Qeq_alt in Hcmp. intros Hlt. right. split; [by symmetry|].
    by destruct (String.compare p.2 q.2).
  - apply Qlt_alt in Hcmp. by left.
Qed.

Lemma ranks_before_trans p q r :
  ranks_before p q → ranks_before q r → ranks_before p r.
Proof.
  unfold ranks_before.
  intros [Hpq|[Hpq Hs1]] [Hqr|[Hqr Hs2]].
  - left. by apply Qlt_trans with q.1.
  - left. by rewrite <- Hqr.
  - left. by rewrite Hpq.
  - right. split; [by apply Qeq_trans with q.1|]. by eapply string_leb_trans.
Qed.

(** ** Sorting *)

Lemma insert_reverse_Permutation x l : insert_reverse x l ≡ₚ x :: l.
Proof.
  induction l as [|y l IH]; simpl; [done|].
  destruct (tuple_lt x y); [|done].
  rewrite IH. apply Permutation_swap.
Qed.

Lemma sorted_reverse_Permutation l : sorted_reverse l ≡ₚ l.
Proof.
  induction l as [|x l IH]; simpl; [done|].
  by rewrite insert_reverse_Permutation, IH.
Qed.

Lemma insert_reverse_sorted x l :
  StronglySorted ranks_before l →
  StronglySorted ranks_before (insert_reverse x l).
Proof.
  induction 1 as [|y l Hsorted IH Hall]; simpl.
  - by repeat constructor.
  - destruct (tuple_lt x y) eqn:Hlt.
    + constructor; [done|].
      rewrite insert_reverse_Permutation. constructor; [|done].
      by apply tuple_lt_true.
    + apply tuple_lt_false in Hlt.
      constructor; [by constructor|]. constructor; [done|].
      eapply Forall_impl; [exact Hall|].
      intros z Hz. by eapply ranks_before_trans.
Qed.

Lemma sorted_reverse_sorted l : StronglySorted ranks_before (sorted_reverse l).
Proof.
  induction l as [|x l IH]; simpl; [constructor|].
  by apply insert_reverse_sorted.
Qed.

Lemma StronglySorted_lookup_lt {A} (R : relation A) l (i j : nat) x y :
  StronglySorted R l → (i < j)%nat →
  l !! i = Some x → l !! j = Some y → R x y.
Proof.
  intros Hsorted. revert i j.
  induction Hsorted as [|z l _ IH Hall]; intros i j Hij Hi Hj; [done|].
  destruct j as [|j]; [lia|]. destruct i as [|i]; simpl in *.
  - injection Hi as ->. rewrite Forall_forall in Hall.
    apply Hall. by eapply list_elem_of_lookup_2.
  - apply (IH i j); [lia|done|done].
Qed.

(** ** The ranked list before sorting *)

(** The two [zip]s of [rank] pair every test with its own score. *)
Lemma zip_scores_tests (f : Q * string → Q) (raw : list Q)
    (tests : list string) :
  zip (map f (zip raw tests)) tests
  = map (λ vt, (f vt, vt.2)) (zip raw tests).
Proof.
  revert raw. induction tests as [|test tests IH]; intros [|v raw];
    simpl; try done.
  by rewrite IH.
Qed.

(** What [rank] sorts: every test with the score it is given. *)
Lemma rank_unsorted predict tests dependencies changed :
  rank predict tests dependencies changed
  = sorted_reverse
      (map (λ vt : Q * string,
              (if decide (vt.2 ∈ changed) then 1%Q else vt.1, vt.2))
           (zip (predict (map (λ test,
                                 bfs_features test dependencies changed)
                              tests))
                tests)).
Proof.
  unfold rank.
  by rewrite (zip_scores_tests
                (λ vt, if decide (vt.2 ∈ changed) then 1%Q else vt.1)).
Qed.

(** ** Claims about [rank] *)

(** C1: a test whose path is in the change set is ranked with score 1
    whatever the model returned for it (and it is ranked, when the model
    returns one score per test), and its feature vector has a count of at
    least 1 and minimum distance 0. *)
Theorem rank_changed_test predict tests dependencies changed test :
  test ∈ changed →
  (∀ score, (score, test) ∈ rank predict tests dependencies changed →
            score = 1%Q)
  ∧ (length (predict (map (λ t, bfs_features t dependencies changed) tests))
     = length tests →
     test ∈ tests → (1%Q, test) ∈ rank predict tests dependencies changed)
  ∧ 1 ≤ changed_reachable_count (bfs_features test dependencies changed)
  ∧ min_distance (bfs_features test dependencies changed) = 0.
Proof.
  intros Hchanged. rewrite rank_unsorted.
  set (raw := predict _). repeat split.
  - intros score. rewrite sorted_reverse_Permutation, list_elem_of_fmap.
    intros ([v t] & [= -> ->] & _). simpl. by rewrite decide_True.
  - intros Hlen Htest. rewrite sorted_reverse_Permutation, list_elem_of_fmap.
    apply list_elem_of_lookup in Htest as [i Hi].
    destruct (lookup_lt_is_Some_2 raw i) as [v Hv].
    { rewrite Hlen. by eapply lookup_lt_Some. }
    exists (v, test). simpl. rewrite decide_True by done. split; [done|].
    apply list_elem_of_lookup. exists i.
    apply lookup_zip_with_Some. by exists v, test.
  - unfold bfs_features. simpl. rewrite bfs_while_count.
    assert (test ∈ visited (bfs_while dependencies changed (bfs_init test))
                   ∩ changed) as Hin.
    { apply elem_of_intersection. split; [|done].
      apply bfs_while_visits_all. apply rtc_refl. }
    apply elem_of_subseteq_singleton, subseteq_size in Hin.
    rewrite size_singleton in Hin. lia.
  - unfold bfs_features. simpl. by apply bfs_while_changed_test.
Qed.

Lemma rank_changed_test_witness :
  (∀ score,
     (score, "t1")
     ∈ rank (λ features, map (λ _, 1 # 4) features) ["t0"; "t1"] diamond
         {["t1"]} →
     score = 1%Q)
  ∧ (1%Q, "t1")
    ∈ rank (λ features, map (λ _, 1 # 4) features) ["t0"; "t1"] diamond
        {["t1"]}
  ∧ 1 ≤ changed_reachable_count (bfs_features "t1" diamond {["t1"]})
  ∧ min_distance (bfs_features "t1" diamond {["t1"]}) = 0.
Proof.
  destruct (rank_changed_test (λ features, map (λ _, 1 # 4) features)
              ["t0"; "t1"] diamond {["t1"]} "t1")
    as (Hscore & Hranked & Hcount & Hmin).
  - by apply elem_of_singleton.
  - split; [exact Hscore|]. split; [|split; [exact Hcount|exact Hmin]].
    apply Hranked; [reflexivity|]. apply list_elem_of_In. simpl. tauto.
Defined.

(** A model that scores a test by a quarter of its count: the changed test
    is forced to 1, and the tie between the other two is broken by path,
    greater first. *)
Example rank_three_tests :
  rank (map (λ v, changed_reachable_count v # 4)) ["t_a"; "t_b"; "t_c"]
    {[ "t_a" := ["S1"]; "t_b" := ["S2"]; "t_c" := ["S1"] ]} {["S1"; "t_b"]}
  = [(1%Q, "t_b"); (1 # 4, "t_c"); (1 # 4, "t_a")].
Proof. by vm_compute. Qed.

(** C3: when the model returns one score per test, the ranked list pairs
    every input test with a score exactly once: its paths are a permutation
    of the input list. *)
Theorem rank_permutation predict tests dependencies changed :
  length (predict (map (λ t, bfs_features t dependencies changed) tests))
  = length tests →
  (rank predict tests dependencies changed).*2 ≡ₚ tests
  ∧ length (rank predict tests dependencies changed) = length tests.
Proof.
  intros Hlen. rewrite rank_unsorted. set (raw := predict _) in *.
  assert ((sorted_reverse
             (map (λ vt : Q * string,
                     (if decide (vt.2 ∈ changed) then 1%Q else vt.1, vt.2))
                  (zip raw tests))).*2 ≡ₚ tests) as Hperm.
  { rewrite sorted_reverse_Permutation, <- list_fmap_compose.
    change (snd ∘ _) with (@snd Q string).
    rewrite snd_zip by lia. done. }
  split; [done|].
  by rewrite <- (length_fmap snd), Hperm.
Qed.

Lemma rank_permutation_witness :
  (rank (λ features, map (λ _, 1 # 4) features) ["t0"; "t1"; "t0"] diamond
     {["t1"]}).*2 ≡ₚ ["t0"; "t1"; "t0"]
  ∧ length (rank (λ features, map (λ _, 1 # 4) features) ["t0"; "t1"; "t0"]
              diamond {["t1"]}) = 3%nat.
Proof.
  apply (rank_permutation (λ features, map (λ _, 1 # 4) features)
           ["t0"; "t1"; "t0"] diamond {["t1"]}).
  reflexivity.
Defined.

(** ** Ranking when a score may be not-a-number *)

Lemma tuple_lt_float_numbers p q :
  tuple_lt_float (number_pair p) (number_pair q) = tuple_lt p q.
Proof. by destruct p, q. Qed.

Lemma insert_reverse_float_Permutation x l :
  insert_reverse_float x l ≡ₚ x :: l.
Proof.
  induction l as [|y l IH]; simpl; [done|].
  destruct (tuple_lt_float x y); [|done].
  rewrite IH. apply Permutation_swap.
Qed.

Lemma insert_reverse_float_numbers x l :
  insert_reverse_float (number_pair x) (map number_pair l)
  = map number_pair (insert_reverse x l).
Proof.
  induction l as [|y l IH]; simpl; [done|].
  rewrite tuple_lt_float_numbers. destruct (tuple_lt x y); [|done].
  simpl. by rewrite IH.
Qed.

(** Insertion with Python's comparison meets the contract of [sorted]. *)
Lemma sorted_reverse_float_contract : sorted_contract sorted_reverse_float.
Proof.
  split.
  - induction l as [|x l IH]; simpl; [done|].
    by rewrite insert_reverse_float_Permutation, IH.
  - induction l as [|x l IH]; simpl; [done|].
    by rewrite IH, insert_reverse_float_numbers.
Qed.

(** A list without not-a-number scores is a list of number pairs. *)
Lemma nan_free_numbers (l : list (pyfloat * string)) :
  Forall (λ p, is_nan p.1 = false) l → ∃ lq, l = map number_pair lq.
Proof.
  induction 1 as [|[[q|] t] l Hx _ [lq ->]]; [by exists []| |done].
  by exists ((q, t) :: lq).
Qed.

Lemma zip_scores_tests_float (f : pyfloat * string → pyfloat)
    (raw : list pyfloat) (tests : list string) :
  zip (map f (zip raw tests)) tests
  = map (λ vt, (f vt, vt.2)) (zip raw tests).
Proof.
  revert raw. induction tests as [|test tests IH]; intros [|v raw];
    simpl; try done.
  by rewrite IH.
Qed.

(** What [rank_float] sorts: every test with the score it is given. *)
Lemma rank_float_unsorted sorted predict tests dependencies changed :
  rank_float sorted predict tests dependencies changed
  = sorted
      (map (λ vt : pyfloat * string,
              (if decide (vt.2 ∈ changed) then Num 1 else vt.1, vt.2))
           (zip (predict (map (λ test,
                                 bfs_features test dependencies changed)
                              tests))
                tests)).
Proof.
  unfold rank_float.
  by rewrite (zip_scores_tests_float
                (λ vt, if decide (vt.2 ∈ changed) then Num 1 else vt.1)).
Qed.

(** With a model whose scores are numbers, [rank_float] is [rank]. *)
Lemma rank_float_numbers sorted (predict : list FeatureVector → list Q)
    tests dependencies changed :
  sorted_contract sorted →
  rank_float sorted (λ features, map Num (predict features)) tests
    dependencies changed
  = map number_pair (rank predict tests dependencies changed).
Proof.
  intros [_ Hnumbers].
  rewrite rank_float_unsorted, rank_unsorted, <- Hnumbers. f_equal.
  generalize (predict (map (λ test, bfs_features test dependencies changed)
                           tests)).
  induction tests as [|t tests IH]; intros [|v raw]; simpl; try done.
  rewrite IH. unfold number_pair. simpl. by destruct (decide (t ∈ changed)).
Qed.

(** The ranked list of a run in which the model returns not-a-number for one
    of two tests: the pair with the score 1/2 follows the pair whose score
    is not a number, and 1/2 <= nan is false.  Whatever [sorted] does with
    such a list, its result is not in descending order. *)
Lemma rank_float_nan_not_descending :
  rank_float sorted_reverse_float (λ _, [NaN; Num (1 # 2)]) ["a"; "b"] ∅ ∅
  = [(NaN, "a"); (Num (1 # 2), "b")]
  ∧ ¬ float_le (Num (1 # 2)) NaN
  ∧ ¬ ranked_descending
        (rank_float sorted_reverse_float (λ _, [NaN; Num (1 # 2)])
           ["a"; "b"] ∅ ∅)
  ∧ ∀ sorted,
      sorted_contract sorted →
      ¬ ranked_descending
          (rank_float sorted (λ _, [NaN; Num (1 # 2)]) ["a"; "b"] ∅ ∅).
Proof.
  assert (∀ sorted,
            sorted_contract sorted →
            ¬ ranked_descending
                (rank_float sorted (λ _, [NaN; Num (1 # 2)]) ["a"; "b"]
                   ∅ ∅)) as Hall.
  { intros sorted [Hperm _] Hsorted. rewrite rank_float_unsorted in Hsorted.
    simpl in Hsorted. rewrite !decide_False in Hsorted
      by apply not_elem_of_empty.
    simpl in Hsorted.
    pose proof (Hperm [(NaN, "a"); (Num (1 # 2), "b")]) as Hitems.
    pose proof (Permutation_length Hitems) as Hlen.
    destruct (sorted [(NaN, "a"); (Num (1 # 2), "b")])
      as [|p [|q [|r l]]]; try done.
    destruct (Hsorted 0%nat 1%nat p q) as [Hle _]; [lia|done|done|].
    assert (p.1 = NaN ∨ q.1 = NaN) as [Hp|Hq].
    { assert ((NaN, "a") ∈ [(NaN, "a"); (Num (1 # 2), "b")]) as Hin
        by apply list_elem_of_here.
      rewrite <- Hitems in Hin. apply list_elem_of_In in Hin. simpl in Hin.
      destruct Hin as [ -> |[ -> |[]]]; auto. }
    - rewrite Hp in Hle. by destruct q.1.
    - by rewrite Hq in Hle. }
  split; [reflexivity|]. split; [by intros []|].
  split; [|done]. apply Hall, sorted_reverse_float_contract.
Qed.

(** C2: when no score of the ranked list is not-a-number, the list is in
    descending order of score, and of two pairs with equal scores the one
    with the lexicographically greater path comes first.  Two tests
    "alpha_test" and "beta_test" with the same score are ranked "beta_test"
    first, in whichever order they were given. *)
Theorem rank_float_sorted_descending sorted :
  sorted_contract sorted →
  (∀ predict tests dependencies changed,
     Forall (λ p, is_nan p.1 = false)
       (rank_float sorted predict tests dependencies changed) →
     ranked_descending (rank_float sorted predict tests dependencies changed))
  ∧ (∀ (score : Q) dependencies,
       rank_float sorted (λ features, map (λ _, Num score) features)
         ["alpha_test"; "beta_test"] dependencies ∅
       = [(Num score, "beta_test"); (Num score, "alpha_test")]
       ∧ rank_float sorted (λ features, map (λ _, Num score) features)
           ["beta_test"; "alpha_test"] dependencies ∅
         = [(Num score, "beta_test"); (Num score, "alpha_test")]).
Proof.
  intros [Hperm Hnumbers]. split.
  - intros predict tests dependencies changed.
    rewrite rank_float_unsorted. set (l := map _ _).
    intros Hfree. apply (Permutation_Forall (Hperm l)) in Hfree.
    apply nan_free_numbers in Hfree as [lq ->].
    rewrite Hnumbers. intros i j p q Hij.
    rewrite !list_lookup_fmap.
    destruct (sorted_reverse lq !! i) as [p'|] eqn:Hi; [|done].
    destruct (sorted_reverse lq !! j) as [q'|] eqn:Hj; [|done].
    intros [= <-] [= <-]. unfold number_pair. simpl.
    destruct (StronglySorted_lookup_lt ranks_before _ i j p' q'
                (sorted_reverse_sorted lq) Hij Hi Hj) as [Hlt|[Heq Hle]].
    + split; [by apply Qlt_le_weak|].
      intros Heq. rewrite Heq in Hlt. by apply Qlt_irrefl in Hlt.
    + split; [|done]. rewrite Heq. apply Qle_refl.
  - intros score dependencies.
    assert (Qcompare score score = Eq) as Hrefl by (by apply Qeq_alt).
    rewrite !rank_float_unsorted. cbn -[bfs_features].
    rewrite !decide_False by apply not_elem_of_empty.
    change [(Num score, "alpha_test"); (Num score, "beta_test")]
      with (map number_pair [(score, "alpha_test"); (score, "beta_test")]).
    change [(Num score, "beta_test"); (Num score, "alpha_test")]
      with (map number_pair [(score, "beta_test"); (score, "alpha_test")]).
    rewrite !Hnumbers. unfold sorted_reverse. simpl.
    unfold tuple_lt. cbn -[Qcompare]. rewrite Hrefl. split; reflexivity.
Qed.

Lemma rank_float_sorted_descending_witness :
  float_le (Num (1 # 2)) (Num (1 # 2))
  ∧ (float_eq (Num (1 # 2)) (Num (1 # 2)) → String.leb "t0" "t1" = true).
Proof.
  assert (Forall (λ p : pyfloat * string, is_nan p.1 = false)
            (rank_float sorted_reverse_float
               (λ features, map (λ _, Num (1 # 2)) features) ["t0"; "t1"]
               diamond ∅)) as Hfree
    by (by repeat constructor).
  apply (proj1 (rank_float_sorted_descending sorted_reverse_float
                  sorted_reverse_float_contract)
           _ _ _ _ Hfree 0%nat 1%nat (Num (1 # 2), "t1")
           (Num (1 # 2), "t0")).
  - lia.
  - reflexivity.
  - reflexivity.
Defined.

(** ** Change detection *)

Lemma elem_of_changed_files old_hashes new_hashes file :
  file ∈ changed_files old_hashes new_hashes
  ↔ ∃ hash, new_hashes !! file = Some hash
            ∧ (old_hashes !! file = None ∨ old_hashes !! file ≠ Some hash).
Proof.
  unfold changed_files. rewrite elem_of_dom. unfold is_Some.
  setoid_rewrite map_lookup_filter_Some. simpl.
  setoid_rewrite not_elem_of_dom.
  split; intros (hash & Hnew & Hdiff); exists hash; (split; [done|]);
    rewrite Hnew in *; destruct Hdiff as [?|Hne]; auto.
Qed.

Lemma hash_files_dom sha1 join fs project_folder files acc new_hashes :
  hash_files sha1 join fs project_folder files acc = Some new_hashes →
  dom new_hashes = dom acc ∪ list_to_set files.
Proof.
  revert acc. induction files as [|file files IH]; simpl; intros acc.
  - intros [= <-]. set_solver.
  - destruct (sha1_file sha1 fs (join project_folder file)); [|done].
    intros Hrest. apply IH in Hrest. rewrite Hrest, dom_insert_L. set_solver.
Qed.

(** A second run over unmodified files finds nothing changed. *)
Lemma changed_files_same hashes : changed_files hashes hashes = ∅.
Proof.
  apply set_eq. intros file.
  rewrite elem_of_changed_files, elem_of_empty. split; [|done].
  intros (hash & Hfile & [Hnone|Hne]); congruence.
Qed.

(** C7: a file of the current run is in the change set exactly when the
    prior mapping has no entry for it or records another hash; a file with
    the same hash in both mappings is not in it; and the change set is a
    subset of the keys of the new mapping, which are the current files. *)
Theorem changed_files_spec :
  (∀ old_hashes new_hashes file hash,
     new_hashes !! file = Some hash →
     (file ∈ changed_files old_hashes new_hashes
      ↔ old_hashes !! file = None ∨ old_hashes !! file ≠ Some hash))
  ∧ (∀ old_hashes new_hashes file hash,
       new_hashes !! file = Some hash → old_hashes !! file = Some hash →
       file ∉ changed_files old_hashes new_hashes)
  ∧ (∀ old_hashes new_hashes,
       changed_files old_hashes new_hashes ⊆ dom new_hashes)
  ∧ (∀ sha1 join json_load fs project_folder test_files source_files
       new_hashes changed,
       tp_changed sha1 join json_load fs project_folder test_files
         source_files = Some (new_hashes, changed) →
       dom new_hashes = list_to_set (test_files ++ source_files)
       ∧ changed ⊆ list_to_set (test_files ++ source_files)).
Proof.
  split; [|split; [|split]].
  - intros old_hashes new_hashes file hash Hnew.
    rewrite elem_of_changed_files. split.
    + intros (hash' & Hnew' & Hdiff). rewrite Hnew in Hnew'.
      by injection Hnew' as <-.
    + intros Hdiff. by exists hash.
  - intros old_hashes new_hashes file hash Hnew Hold.
    rewrite elem_of_changed_files. intros (hash' & Hnew' & [Hnone|Hne]);
      congruence.
  - intros old_hashes new_hashes file.
    rewrite elem_of_changed_files, elem_of_dom.
    intros (hash & Hnew & _). by exists hash.
  - intros sha1 join json_load fs project_folder test_files source_files
      new_hashes changed. unfold tp_changed.
    destruct (hash_files _ _ _ _ _ _) as [new|] eqn:Hnew; [|done].
    intros [= -> <-]. apply hash_files_dom in Hnew.
    rewrite dom_empty_L, (left_id_L ∅ (∪)) in Hnew. split; [done|].
    intros file. rewrite elem_of_changed_files.
    intros (hash & Hfile & _). apply elem_of_dom_2 in Hfile.
    by rewrite Hnew in Hfile.
Qed.

Lemma changed_files_spec_witness :
  changed_files example_old_hashes example_new_hashes = {[ "b.py"; "c.py" ]}
  ∧ ("b.py" ∈ changed_files example_old_hashes example_new_hashes
     ↔ example_old_hashes !! "b.py" = None
       ∨ example_old_hashes !! "b.py" ≠ Some "23")
  ∧ "a.py" ∉ changed_files example_old_hashes example_new_hashes.
Proof.
  split; [by vm_compute|]. split.
  - by apply (proj1 changed_files_spec).
  - by apply (proj1 (proj2 changed_files_spec) _ _ _ "11").
Defined.

(** C8: when [hashes.json] cannot be opened or cannot be parsed,
    [load_hashes] returns the empty mapping, and then every file of the
    current run is in the change set. *)
Theorem load_hashes_missing sha1 join json_load fs project_folder :
  match fs !! join (join project_folder FOLDER) "hashes.json" with
  | Some content => json_load content = None
  | None => True
  end →
  load_hashes join json_load fs project_folder = ∅
  ∧ ∀ test_files source_files new_hashes changed,
      tp_changed sha1 join json_load fs project_folder test_files
        source_files = Some (new_hashes, changed) →
      changed = dom new_hashes
      ∧ changed = list_to_set (test_files ++ source_files).
Proof.
  intros Hmissing.
  assert (load_hashes join json_load fs project_folder = ∅) as Hempty.
  { unfold load_hashes.
    destruct (fs !! join (join project_folder FOLDER) "hashes.json");
      [by rewrite Hmissing|done]. }
  split; [done|].
  intros test_files source_files new_hashes changed. unfold tp_changed.
  rewrite Hempty.
  destruct (hash_files _ _ _ _ _ _) as [new|] eqn:Hnew; [|done].
  intros [= -> <-]. apply hash_files_dom in Hnew.
  rewrite dom_empty_L, (left_id_L ∅ (∪)) in Hnew.
  assert (changed_files ∅ new_hashes = dom new_hashes) as Hall.
  { apply set_eq. intros file.
    rewrite elem_of_changed_files, elem_of_dom. unfold is_Some.
    split; intros (hash & Hfile); exists hash; [tauto|].
    split; [done|]. left. apply lookup_empty. }
  by rewrite Hall.
Qed.

Lemma load_hashes_missing_witness :
  load_hashes example_join (λ _, None) example_fs "p" = ∅
  ∧ ({[ "test_a.py"; "a.py" ]} : gset string)
    = dom ({[ "test_a.py" := "assert a"; "a.py" := "a = 1" ]}
             : gmap string string)
  ∧ ({[ "test_a.py"; "a.py" ]} : gset string)
    = list_to_set (["test_a.py"] ++ ["a.py"]).
Proof.
  destruct (load_hashes_missing (λ content, content) example_join
              (λ _, None) example_fs "p") as [Hempty Hall].
  - by vm_compute.
  - split; [exact Hempty|]. apply Hall. by vm_compute.
Defined.

(** ** The dependency graph *)

Section graph_facts.
Variable relpath : string → string → string.
Variable files : list (string * entry).
Variable project_folder : string.

Lemma add_items_dom deps items acc graph :
  add_items relpath files project_folder deps items acc = Some graph →
  ∀ path, path ∈ dom graph
          ↔ path ∈ dom acc
            ∨ ∃ it : item, it ∈ items
                           ∧ relpath it.1.1 project_folder = path.
Proof.
  revert acc. induction items as [|[[path1 ext1] src1] items IH];
    simpl; intros acc.
  - intros [= <-] path. split; [by left|].
    intros [?|(it & Hit & _)]; [done|]. by apply elem_of_nil in Hit.
  - destruct (resolve relpath files project_folder deps) as [edges|];
      [|done].
    intros Hrest path. rewrite (IH _ Hrest), dom_insert, elem_of_union,
      elem_of_singleton.
    split.
    + intros [[->|?]|(it & Hit & Hpath)].
      * right. exists (path1, ext1, src1). split; [left|done].
      * by left.
      * right. exists it. split; [by right|done].
    + intros [?|(it & Hit & Hpath)]; [by left; right|].
      apply elem_of_cons in Hit as [->|Hit]; [by left; left|].
      right. by exists it.
Qed.

Lemma add_items_lookup deps items acc graph path edges :
  add_items relpath files project_folder deps items acc = Some graph →
  graph !! path = Some edges →
  acc !! path = Some edges
  ∨ (resolve relpath files project_folder deps = Some edges
     ∧ ∃ it : item, it ∈ items ∧ relpath it.1.1 project_folder = path).
Proof.
  revert acc. induction items as [|[[path1 ext1] src1] items IH];
    simpl; intros acc.
  - intros [= <-] Hpath. by left.
  - destruct (resolve relpath files project_folder deps) as [edges'|] eqn:Hres;
      [|done].
    intros Hrest Hpath.
    destruct (IH _ Hrest Hpath) as [Hacc|(Hedges & it & Hit & Hit')].
    + rewrite lookup_insert in Hacc. case_decide as Heq.
      * injection Hacc as <-. right. split; [done|].
        exists (path1, ext1, src1). split; [left|done].
      * by left.
    + right. split; [done|]. exists it. split; [by right|done].
Qed.

Lemma add_files_dom values acc graph :
  add_files relpath files project_folder values acc = Some graph →
  ∀ path, path ∈ dom graph
          ↔ path ∈ dom acc
            ∨ ∃ deps, written_by relpath project_folder values path deps.
Proof.
  revert acc. induction values as [|[key [deps items]] values IH];
    simpl; intros acc.
  - intros [= <-] path. split; [by left|].
    intros [?|(deps & key & items & it & Hin & _)]; [done|].
    by apply elem_of_nil in Hin.
  - destruct deps as [|dep deps].
    + intros Hrest path. rewrite (IH _ Hrest). apply or_iff_compat_l.
      split; intros (deps' & key' & items' & it & Hin & Hdeps & Hit);
        exists deps', key', items', it; (split; [|done]).
      * by right.
      * apply elem_of_cons in Hin as [[= -> -> ->]|Hin]; done.
    + destruct (add_items _ _ _ _ _ _) as [acc'|] eqn:Hitems; [|done].
      intros Hrest path.
      rewrite (IH _ Hrest), (add_items_dom _ _ _ _ Hitems). split.
      * intros [[?|(it & Hit & Hpath)]|Hw]; [by left| |].
        -- right. exists (dep :: deps), key, items, it.
           split; [left|done].
        -- destruct Hw as (deps' & key' & items' & it & Hin & Hrest').
           right. exists deps', key', items', it. split; [by right|done].
      * intros [?|(deps' & key' & items' & it & Hin & Hne & Hit & Hpath)];
          [by left; left|].
        apply elem_of_cons in Hin as [[= -> -> ->]|Hin].
        -- left. right. by exists it.
        -- right. by exists deps', key', items', it.
Qed.

Lemma add_files_lookup values acc graph path edges :
  add_files relpath files project_folder values acc = Some graph →
  graph !! path = Some edges →
  acc !! path = Some edges
  ∨ ∃ deps, written_by relpath project_folder values path deps
            ∧ resolve relpath files project_folder deps = Some edges.
Proof.
  revert acc. induction values as [|[key [deps items]] values IH];
    simpl; intros acc.
  - intros [= <-] Hpath. by left.
  - assert (∀ deps', (∃ d, written_by relpath project_folder values path d
                           ∧ resolve relpath files project_folder d
                             = Some edges) →
             ∃ d, written_by relpath project_folder
                    ((key, (deps', items)) :: values) path d
                  ∧ resolve relpath files project_folder d = Some edges)
      as Hweaken.
    { intros deps' (d & (key' & items' & it & Hin & Hrest') & Hres).
      exists d. split; [|done]. exists key', items', it.
      split; [by right|done]. }
    destruct deps as [|dep deps].
    + intros Hrest Hpath.
      destruct (IH _ Hrest Hpath) as [?|?]; [by left|right; auto].
    + destruct (add_items _ _ _ _ _ _) as [acc'|] eqn:Hitems; [|done].
      intros Hrest Hpath.
      destruct (IH _ Hrest Hpath) as [Hacc'|?]; [|right; auto].
      destruct (add_items_lookup _ _ _ _ _ _ Hitems Hacc')
        as [?|(Hres & it & Hit & Hit')]; [by left|].
      right. exists (dep :: deps). split; [|done].
      exists key, items, it. split; [left|done].
Qed.

(** No [KeyError] when every dependency names a file of the extractor's
    output. *)
Lemma resolve_is_Some deps :
  Forall (λ dep, is_Some (files_lookup files dep)) deps →
  is_Some (resolve relpath files project_folder deps).
Proof.
  intros Hdeps. unfold resolve.
  destruct (mapM (files_lookup files) deps) as [found|] eqn:Hfound; [done|].
  apply mapM_None, Exists_exists in Hfound as (dep & Hin & Hnone).
  rewrite Forall_forall in Hdeps. destruct (Hdeps dep Hin) as [value Hvalue].
  congruence.
Qed.

Lemma add_items_is_Some deps items acc :
  is_Some (resolve relpath files project_folder deps) →
  is_Some (add_items relpath files project_folder deps items acc).
Proof.
  intros [edges Hedges]. revert acc.
  induction items as [|[[path1 ext1] src1] items IH]; simpl; intros acc;
    [done|].
  rewrite Hedges. apply IH.
Qed.

Lemma add_files_is_Some values acc :
  Forall (λ kv : string * entry,
            Forall (λ dep, is_Some (files_lookup files dep)) kv.2.1) values →
  is_Some (add_files relpath files project_folder values acc).
Proof.
  intros Hvalues. revert acc.
  induction Hvalues as [|[key [deps items]] values Hdeps _ IH]; simpl;
    intros acc; [done|].
  destruct deps as [|dep deps]; [apply IH|].
  destruct (add_items_is_Some (dep :: deps) items acc) as [acc' ->];
    [by apply resolve_is_Some|].
  apply IH.
Qed.

End graph_facts.

(** [get_dependencies] returns a graph whenever the dependencies of every
    file are keys of the extractor's output. *)
Lemma get_dependencies_is_Some (Profile : Type) extract relpath
    (profile : Profile) inputs project_folder :
  Forall (λ kv : string * entry,
            Forall (λ dep, is_Some (files_lookup (extract profile inputs).1
                                      dep)) kv.2.1)
         (extract profile inputs).1 →
  is_Some (get_dependencies Profile extract relpath profile inputs
             project_folder).
Proof.
  unfold get_dependencies. destruct (extract profile inputs) as [files count].
  simpl. apply add_files_is_Some.
Qed.

(** C9: the keys of the graph are the relative paths of the items of the
    files that have at least one dependency; the list stored for a key is,
    for each dependency of such a file in turn, the relative paths of all
    items of the file the dependency names.  In [example_files] the single
    dependency [m] of the test has two items and gives two edges, and [m],
    which has no dependency, is not a key. *)
Theorem get_dependencies_spec :
  (∀ (Profile : Type) extract relpath (profile : Profile) inputs
     project_folder graph,
     get_dependencies Profile extract relpath profile inputs project_folder
     = Some graph →
     let files := (extract profile inputs).1 in
     (∀ path,
        path ∈ dom graph
        ↔ ∃ key deps items (it : item),
            (key, (deps, items)) ∈ files ∧ deps ≠ [] ∧ it ∈ items
            ∧ relpath it.1.1 project_folder = path)
     ∧ (∀ path edges,
          graph !! path = Some edges →
          ∃ key deps items (it : item) (found : list entry),
            (key, (deps, items)) ∈ files ∧ deps ≠ [] ∧ it ∈ items
            ∧ relpath it.1.1 project_folder = path
            ∧ Forall2 (λ dep value, files_lookup files dep = Some value)
                deps found
            ∧ edges
              = concat (map (λ value : entry,
                               map (λ it2 : item,
                                      relpath it2.1.1 project_folder)
                                   value.2) found)))
  ∧ get_dependencies unit (λ _ _, (example_files, 2)) example_relpath tt
      ["p/tests"; "p/src"] "p"
    = Some {[ "tests/test_m.py" := ["src/m.py"; "lib/m.py"] ]}.
Proof.
  split; [|by vm_compute].
  intros Profile extract relpath profile inputs project_folder graph.
  unfold get_dependencies.
  destruct (extract profile inputs) as [files count]. simpl.
  intros Hgraph. split.
  - intros path. rewrite (add_files_dom _ _ _ _ _ _ Hgraph), dom_empty.
    split.
    + intros [Hempty|(deps & key & items & it & Hw)];
        [by apply elem_of_empty in Hempty|].
      by exists key, deps, items, it.
    + intros (key & deps & items & it & Hw). right.
      by exists deps, key, items, it.
  - intros path edges Hpath.
    destruct (add_files_lookup _ _ _ _ _ _ _ _ Hgraph Hpath)
      as [Hempty|(deps & (key & items & it & Hin & Hne & Hit & Hrel) & Hres)];
      [by rewrite lookup_empty in Hempty|].
    unfold resolve in Hres.
    destruct (mapM (files_lookup files) deps) as [found|] eqn:Hfound;
      [|done].
    injection Hres as <-. apply mapM_Some in Hfound.
    by exists key, deps, items, it, found.
Qed.

Lemma get_dependencies_spec_witness :
  let files := example_files in
  let graph : gmap string (list string) :=
    {[ "tests/test_m.py" := ["src/m.py"; "lib/m.py"] ]} in
  (∀ path,
     path ∈ dom graph
     ↔ ∃ key deps items (it : item),
         (key, (deps, items)) ∈ files ∧ deps ≠ [] ∧ it ∈ items
         ∧ example_relpath it.1.1 "p" = path)
  ∧ (∀ path edges,
       graph !! path = Some edges →
       ∃ key deps items (it : item) (found : list entry),
         (key, (deps, items)) ∈ files ∧ deps ≠ [] ∧ it ∈ items
         ∧ example_relpath it.1.1 "p" = path
         ∧ Forall2 (λ dep value, files_lookup files dep = Some value)
             deps found
         ∧ edges
           = concat (map (λ value : entry,
                            map (λ it2 : item, example_relpath it2.1.1 "p")
                                value.2) found)).
Proof.
  apply (proj1 get_dependencies_spec unit (λ _ _, (example_files, 2))
           example_relpath tt ["p/tests"; "p/src"] "p").
  by vm_compute.
Defined.

(** * Further properties *)

(** ** Shortest paths *)

Section shortest_paths.
Variable dependencies : gmap string (list string).
Variable changed : gset string.

(** What one execution of the loop body does, case by case. *)
Lemma bfs_step_Some st st' :
  bfs_step dependencies changed st = Some st' →
  ∃ x d rest,
    neighbors st = (x, d) :: rest
    ∧ ((st' = mkBfs rest (visited st) (number_changed_dep st)
                (len_shortest_path st) (avg_len_shortest_paths st)
        ∧ x ∈ visited st)
       ∨ (neighbors st'
          = rest ++ map (λ dep, (dep, d + 1))
                      (default [] (dependencies !! x))
          ∧ visited st' = {[x]} ∪ visited st
          ∧ (x ∉ visited st)
          ∧ ((number_changed_dep st' = number_changed_dep st + 1
              ∧ len_shortest_path st' = Z.min d (len_shortest_path st)
              ∧ avg_len_shortest_paths st' = avg_len_shortest_paths st + d
              ∧ x ∈ changed)
             ∨ (number_changed_dep st' = number_changed_dep st
                ∧ len_shortest_path st' = len_shortest_path st
                ∧ avg_len_shortest_paths st' = avg_len_shortest_paths st
                ∧ x ∉ changed)))).
Proof.
  intros Hstep. bfs_step_cases st Hstep; exists neighbor, dist, rest;
    (split; [done|]); [by left|right..]; rewrite ?Hdeps; simpl;
    rewrite ?app_nil_r; repeat split; try done.
  1,2: left; repeat split; try done; destruct (Z.ltb_spec dist m); lia.
  all: by right.
Qed.

Lemma edge_default x y :
  edge dependencies x y ↔ y ∈ default [] (dependencies !! x).
Proof.
  unfold edge. destruct (dependencies !! x) as [deps|]; simpl.
  - split; [by intros (? & [= <-] & ?)|by exists deps].
  - split; [by intros (? & [=] & _)|by intros ?%elem_of_nil].
Qed.

Lemma level_sorted_next d dists news :
  level_sorted (d :: dists) → Forall (λ e, e = d + 1) news →
  level_sorted (dists ++ news).
Proof.
  intros [Hsorted Hbound] Hnews.
  apply StronglySorted_inv in Hsorted as [Hsorted Hhead].
  apply Forall_cons in Hbound as [_ Hbound].
  assert (StronglySorted Z.le (dists ++ news)) as Hall.
  { apply StronglySorted_app_2; [|done|].
    - intros e1 e2 He1 He2. rewrite Forall_forall in Hbound, Hnews.
      rewrite (Hnews e2 He2). by apply Hbound.
    - clear -Hnews. induction Hnews as [|e news -> Hnews IH];
        [constructor|]. constructor; [done|].
      eapply Forall_impl; [exact Hnews|]. simpl. intros; lia. }
  destruct dists as [|d2 dists]; simpl.
  - destruct news as [|e news]; [done|]. split; [done|].
    eapply Forall_impl; [exact Hnews|]. simpl.
    apply Forall_cons in Hnews as [-> _]. intros; lia.
  - split; [done|]. apply Forall_cons in Hhead as [Hd2 _].
    apply (Forall_app _ (d2 :: dists) news). split.
    + eapply Forall_impl; [exact Hbound|]. simpl. intros; lia.
    + eapply Forall_impl; [exact Hnews|]. simpl. intros; lia.
Qed.

(** Any node that a path reaches is seen, or the queue still holds an entry
    that is no farther than the path is long. *)
Lemma bfs_invariant_frontier test st (k : nat) y :
  bfs_invariant dependencies changed test st →
  nsteps (edge dependencies) k test y →
  y ∈ visited st ∨ ∃ z d', (z, d') ∈ neighbors st ∧ d' ≤ Z.of_nat k.
Proof.
  intros (_ & _ & Htest & Hsucc & _). revert y.
  induction k as [|k IH]; intros y Hpath.
  - assert (y = test) as -> by (by inv Hpath).
    destruct Htest as [?|?]; [by left|right]. by exists test, 0.
  - apply nsteps_inv_r in Hpath as (u & Hpath & Hedge).
    destruct (IH u Hpath) as [Hu|(z & d' & Hin & Hle)].
    + destruct (Hsucc u k y Hu Hpath Hedge) as [?|(d' & Hin & Hle)];
        [by left|right].
      exists y, d'. split; [done|lia].
    + right. exists z, d'. split; [done|lia].
Qed.

(** The entry at the head of the queue, when its node is new, carries the
    length of a shortest path to it. *)
Lemma bfs_invariant_head test st x d rest (k : nat) :
  bfs_invariant dependencies changed test st →
  neighbors st = (x, d) :: rest → x ∉ visited st →
  nsteps (edge dependencies) k test x → d ≤ Z.of_nat k.
Proof.
  intros Hinv Hqueue Hnew Hpath.
  destruct (bfs_invariant_frontier test st k x Hinv Hpath)
    as [?|(z & d' & Hin & Hle)]; [done|].
  destruct Hinv as (Hlevel & _). rewrite Hqueue in Hlevel, Hin.
  destruct Hlevel as [Hsorted _]. simpl in Hsorted.
  apply elem_of_cons in Hin as [[= -> ->]|Hin]; [done|].
  apply StronglySorted_inv in Hsorted as [_ Hhead].
  rewrite Forall_forall in Hhead.
  assert (d ≤ d'); [|lia].
  apply Hhead. apply list_elem_of_fmap. by exists (z, d').
Qed.

Lemma foldr_min_insert (distances : gmap string nat) x (k : nat) :
  distances !! x = None →
  foldr Z.min sentinel
    (map (λ kv, Z.of_nat kv.2) (map_to_list (<[x := k]> distances)))
  = Z.min (Z.of_nat k)
      (foldr Z.min sentinel
         (map (λ kv, Z.of_nat kv.2) (map_to_list distances))).
Proof.
  intros Hnew.
  change (Z.min (Z.of_nat k) ?r)
    with (foldr Z.min sentinel
            (map (λ kv : string * nat, Z.of_nat kv.2)
                 ((x, k) :: map_to_list distances))).
  apply (foldr_permutation (=) Z.min sentinel).
  - intros j1 a1 j2 a2 b _ _ _. lia.
  - by rewrite (map_to_list_insert distances x k Hnew).
Qed.

Lemma bfs_invariant_init test :
  bfs_invariant dependencies changed test (bfs_init test).
Proof.
  unfold bfs_invariant, bfs_init. simpl.
  split; [|split; [|split; [|split]]].
  - split; repeat constructor. lia.
  - repeat constructor. exists 0%nat. split; [done|constructor].
  - right. by left.
  - intros u k y Hu. by apply elem_of_empty in Hu.
  - exists ∅. rewrite dom_empty_L, map_size_empty, map_to_list_empty.
    split; [set_solver|]. split; [|done].
    intros y d. by rewrite lookup_empty.
Qed.

Lemma bfs_invariant_step test st st' :
  bfs_invariant dependencies changed test st →
  bfs_step dependencies changed st = Some st' →
  bfs_invariant dependencies changed test st'.
Proof.
  intros Hinv Hstep.
  destruct (bfs_step_Some st st' Hstep)
    as (x & d & rest & Hqueue
        & [[-> Hseen]|(Hqueue' & Hvisited' & Hnew & Hacc)]).
  - (* the node was seen before: only the queue changes *)
    destruct Hinv as (Hlevel & Hpaths & Htest & Hsucc & Hdist).
    rewrite Hqueue in *. simpl in *. repeat split.
    + rewrite <- (app_nil_r rest.*2).
      by apply (level_sorted_next d).
    + by apply Forall_cons in Hpaths as [_ ?].
    + destruct Htest as [?|[[= -> _]|?]%elem_of_cons]; auto.
    + intros u k y Hu Hpath Hedge.
      destruct (Hsucc u k y Hu Hpath Hedge)
        as [?|(d' & [[= -> _]|?]%elem_of_cons & Hle)]; eauto.
    + done.
  - (* a new node: it is marked, counted if changed, and expanded *)
    assert (∀ k : nat, nsteps (edge dependencies) k test x → d ≤ Z.of_nat k)
      as Hhead by (intros; by eapply bfs_invariant_head).
    destruct Hinv as (Hlevel & Hpaths & Htest & Hsucc & Hdist).
    rewrite Hqueue in *.
    apply Forall_cons in Hpaths as [(kx & Hkx & Hpx) Hpaths].
    simpl in Hkx, Hpx. subst d.
    split; [|split; [|split; [|split]]].
    + rewrite Hqueue', fmap_app.
      apply (level_sorted_next (Z.of_nat kx)); [done|].
      rewrite <- list_fmap_compose. by apply Forall_fmap, Forall_true.
    + rewrite Hqueue'. apply Forall_app. split; [done|].
      apply Forall_fmap, Forall_forall. intros y Hy. simpl.
      exists (S kx). split; [lia|].
      eapply nsteps_r; [done|]. by apply edge_default.
    + rewrite Hqueue', Hvisited'.
      destruct Htest as [?|[[= -> _]|?]%elem_of_cons];
        [left|left|right]; set_solver.
    + intros u k y Hu Hpath Hedge. rewrite Hqueue', Hvisited'.
      rewrite Hvisited' in Hu.
      apply elem_of_union in Hu as [->%elem_of_singleton|Hu].
      * right. exists (Z.of_nat kx + 1). split.
        -- apply elem_of_app. right. apply list_elem_of_fmap.
           exists y. split; [done|]. by apply edge_default.
        -- specialize (Hhead k Hpath). lia.
      * destruct (Hsucc u k y Hu Hpath Hedge)
          as [?|(d' & [[= -> _]|?]%elem_of_cons & Hle)].
        -- left. set_solver.
        -- left. set_solver.
        -- right. exists d'. split; [|done]. set_solver.
    + destruct Hdist as (distances & Hdom & Hshort & Hn & Hm & Hsum).
      destruct Hacc as [(Hn' & Hm' & Hsum' & Hchanged)
                       |(Hn' & Hm' & Hsum' & Hchanged)].
      * assert (distances !! x = None) as Hfresh.
        { apply not_elem_of_dom. rewrite Hdom. set_solver. }
        exists (<[x := kx]> distances).
        split; [|split; [|split; [|split]]].
        -- rewrite dom_insert_L, Hdom, Hvisited'. set_solver.
        -- intros y dy. rewrite lookup_insert. case_decide as Hy.
           ++ intros [= <-]. subst y. split; [done|].
              intros k Hpath.
              specialize (Hhead k Hpath). lia.
           ++ apply Hshort.
        -- rewrite map_size_insert_None by done. lia.
        -- rewrite foldr_min_insert by done. by rewrite Hm', Hm.
        -- rewrite (sum_list_with_Permutation_proper _ _ _
                      (map_to_list_insert distances x kx Hfresh)).
           simpl. lia.
      * exists distances.
        split; [|split; [done|split; [|split]]]; try congruence.
        rewrite Hdom, Hvisited'. set_solver.
Qed.

End shortest_paths.

Lemma shortest_unique dependencies test y d1 d2 :
  shortest dependencies test y d1 → shortest dependencies test y d2 →
  d1 = d2.
Proof.
  intros [Hp1 Hmin1] [Hp2 Hmin2].
  specialize (Hmin1 d2 Hp2). specialize (Hmin2 d1 Hp1). lia.
Qed.

Lemma distance_table_unique dependencies changed test t1 t2 :
  distance_table dependencies changed test t1 →
  distance_table dependencies changed test t2 → t1 = t2.
Proof.
  intros H1 H2. apply map_eq. intros y. apply option_eq. intros d.
  by rewrite (H1 y d), (H2 y d).
Qed.

(** The traversal computes the features of the distance table. *)
Lemma bfs_features_table dependencies changed test :
  ∃ distances,
    distance_table dependencies changed test distances
    ∧ bfs_features test dependencies changed
      = features_of_distances distances.
Proof.
  destruct (bfs_while_invariant dependencies changed
              (bfs_invariant dependencies changed test)) with (bfs_init test)
    as [(_ & _ & _ & _ & distances & Hdom & Hshort & Hn & Hm & Hsum) _].
  { intros st st'. apply bfs_invariant_step. }
  { apply bfs_invariant_init. }
  exists distances. split.
  - intros y d. split.
    + intros Hy. split; [|by apply Hshort].
      apply elem_of_dom_2 in Hy. rewrite Hdom in Hy. set_solver.
    + intros [Hchanged Hd].
      assert (y ∈ dom distances) as [d' Hd']%elem_of_dom.
      { rewrite Hdom. apply elem_of_intersection. split; [|done].
        apply bfs_while_visits_all. eapply rtc_nsteps_2. apply Hd. }
      by rewrite (shortest_unique _ _ _ _ _ Hd (Hshort _ _ Hd')).
  - unfold bfs_features, bfs_finish, features_of_distances.
    by rewrite Hn, Hm, Hsum.
Qed.

Lemma foldr_min_le (s : Z) l :
  foldr Z.min s l ≤ s ∧ Forall (λ e, foldr Z.min s l ≤ e) l.
Proof.
  induction l as [|e l [IHs IHl]]; simpl; [by split|].
  split; [lia|]. constructor; [lia|].
  eapply Forall_impl; [exact IHl|]. simpl. intros; lia.
Qed.

Lemma foldr_min_elem (s : Z) l : foldr Z.min s l = s ∨ foldr Z.min s l ∈ l.
Proof.
  induction l as [|e l IH]; simpl; [by left|].
  destruct (Z.min_spec e (foldr Z.min s l)) as [[_ ->]|[_ ->]].
  - right. by left.
  - destruct IH as [?|?]; [by left|right; by right].
Qed.

(** X1: the features are those of the table of shortest distances: the
    count is the number of changed nodes the test reaches, the minimum is
    the least of their shortest distances (or the sentinel if that is
    smaller), and the average is the mean of their shortest distances. *)
Theorem bfs_features_shortest_paths test dependencies changed distances :
  distance_table dependencies changed test distances →
  bfs_features test dependencies changed = features_of_distances distances.
Proof.
  intros Htable.
  destruct (bfs_features_table dependencies changed test)
    as (distances' & Htable' & ->).
  f_equal. by eapply distance_table_unique.
Qed.

Lemma bfs_features_shortest_paths_witness :
  bfs_features "A" {[ "A" := ["B"] ]} {["B"]}
  = features_of_distances {[ "B" := 1%nat ]}.
Proof.
  apply bfs_features_shortest_paths.
  assert (shortest {[ "A" := ["B"] ]} "A" "B" 1) as Hshort.
  { split.
    - apply nsteps_once. exists ["B"]. split; [done|by left].
    - intros [|k] Hpath; [by inv Hpath|lia]. }
  intros y d. rewrite lookup_singleton_Some, elem_of_singleton. split.
  - by intros [<- <-].
  - intros [-> Hd]. split; [done|]. by eapply shortest_unique.
Defined.

(** X2: the features depend on the graph only through its edges, and on
    the change set only through the nodes the test reaches: repeating or
    reordering the dependencies of a file changes nothing, and neither do
    changed files out of reach. *)
Theorem bfs_features_ext test graph1 graph2 changed1 changed2 :
  (∀ x y, edge graph1 x y ↔ edge graph2 x y) →
  (∀ y, reachable graph1 test y → (y ∈ changed1 ↔ y ∈ changed2)) →
  bfs_features test graph1 changed1 = bfs_features test graph2 changed2.
Proof.
  intros Hedges Hchanged.
  destruct (bfs_features_table graph1 changed1 test)
    as (distances & Htable & ->).
  destruct (bfs_features_table graph2 changed2 test)
    as (distances' & Htable' & ->).
  f_equal. apply map_eq. intros y. apply option_eq. intros d.
  rewrite (Htable y d), (Htable' y d).
  assert (∀ k, nsteps (edge graph1) k test y ↔ nsteps (edge graph2) k test y)
    as Hsteps.
  { intros k. split; apply (nsteps_congruence id); intros ??; apply Hedges. }
  unfold shortest. setoid_rewrite Hsteps.
  split; intros [Hy [Hpath Hmin]]; (split; [|done]); apply Hchanged;
    try done; apply Hsteps in Hpath; by eapply rtc_nsteps_2.
Qed.

Lemma bfs_features_ext_witness :
  bfs_features "A" {[ "A" := ["B"; "C"; "B"] ]} {["B"; "Z"]}
  = bfs_features "A" {[ "A" := ["C"; "B"] ]} {["B"]}.
Proof.
  apply bfs_features_ext.
  - intros x y. unfold edge. setoid_rewrite lookup_singleton_Some.
    split; intros (deps & [<- <-] & Hy); eexists; (split; [done|]);
      set_solver.
  - intros y Hy. rewrite elem_of_union, !elem_of_singleton.
    split; [|by left]. intros [?| ->]; [done|]. exfalso.
    apply rtc_nsteps_1 in Hy as [k Hk]. revert Hk.
    assert (∀ k x, nsteps (edge {[ "A" := ["B"; "C"; "B"] ]}) k x "Z" →
                   x = "Z") as Hback; [|by intros ?%Hback].
    clear. induction k as [|k IH]; intros x Hk; [by inv Hk|].
    inv Hk. match goal with H : nsteps _ k _ _ |- _ => apply IH in H as -> end.
    match goal with H : edge _ _ _ |- _ =>
      destruct H as (deps & [<- <-]%lookup_singleton_Some & Hin) end.
    set_solver.
Defined.

(** X3: the minimum distance is 0 exactly when the test itself is in the
    change set. *)
Theorem bfs_features_min_zero test dependencies changed :
  min_distance (bfs_features test dependencies changed) = 0 ↔ test ∈ changed.
Proof.
  split.
  - destruct (bfs_features_table dependencies changed test)
      as (distances & Htable & ->). simpl.
    destruct (foldr_min_elem sentinel
                (map (λ kv : string * nat, Z.of_nat kv.2)
                     (map_to_list distances))) as [->|Hin]; [done|].
    intros Hzero. rewrite Hzero in Hin.
    apply list_elem_of_fmap in Hin as ([y d] & Hd & Hin). simpl in Hd.
    apply elem_of_map_to_list, Htable in Hin as [Hy [Hpath _]].
    assert (d = 0%nat) as -> by lia. by inv Hpath.
  - intros Htest. unfold bfs_features. simpl.
    by apply bfs_while_changed_test.
Qed.

(** X4: putting more files in the change set never lowers the count and
    never raises the minimum distance. *)
Theorem bfs_features_monotone test dependencies changed1 changed2 :
  changed1 ⊆ changed2 →
  changed_reachable_count (bfs_features test dependencies changed1)
  ≤ changed_reachable_count (bfs_features test dependencies changed2)
  ∧ min_distance (bfs_features test dependencies changed2)
    ≤ min_distance (bfs_features test dependencies changed1).
Proof.
  intros Hsub.
  destruct (bfs_features_table dependencies changed1 test)
    as (t1 & Htable1 & ->).
  destruct (bfs_features_table dependencies changed2 test)
    as (t2 & Htable2 & ->). simpl.
  assert (t1 ⊆ t2) as Htables.
  { apply map_subseteq_spec. intros y d Hd.
    apply Htable1 in Hd as [Hy Hd]. apply Htable2. split; [|done].
    by apply Hsub. }
  split.
  - apply Nat2Z.inj_le. by apply map_subseteq_size.
  - set (l1 := map (λ kv : string * nat, Z.of_nat kv.2) (map_to_list t1)).
    set (l2 := map (λ kv : string * nat, Z.of_nat kv.2) (map_to_list t2)).
    destruct (foldr_min_le sentinel l2) as [Hs Hl2].
    destruct (foldr_min_elem sentinel l1) as [->|Hin]; [done|].
    rewrite Forall_forall in Hl2. apply Hl2.
    apply list_elem_of_fmap in Hin as ([y d] & -> & Hin).
    apply list_elem_of_fmap. exists (y, d). split; [done|].
    apply elem_of_map_to_list. apply elem_of_map_to_list in Hin.
    by eapply lookup_weaken.
Qed.

Lemma bfs_features_monotone_witness :
  changed_reachable_count (bfs_features "A" diamond {["S3"]})
  ≤ changed_reachable_count (bfs_features "A" diamond {["S1"; "S3"]})
  ∧ min_distance (bfs_features "A" diamond {["S1"; "S3"]})
    ≤ min_distance (bfs_features "A" diamond {["S3"]}).
Proof.
  apply bfs_features_monotone. set_solver.
Defined.

(** ** More on [rank] *)

Lemma snd_zip_take {A B} (l : list A) (k : list B) :
  (zip l k).*2 = take (length l) k.
Proof.
  revert k. induction l as [|x l IH]; intros [|y k]; simpl; try done.
  by rewrite IH.
Qed.

(** The pairs of the ranked list: the test at some position of the input,
    with 1 if it is in the change set and else with the score the model
    returned at that position. *)
Lemma elem_of_rank predict tests dependencies changed score test :
  (score, test) ∈ rank predict tests dependencies changed
  ↔ ∃ (i : nat) v,
      tests !! i = Some test
      ∧ predict (map (λ t, bfs_features t dependencies changed) tests) !! i
        = Some v
      ∧ score = if decide (test ∈ changed) then 1%Q else v.
Proof.
  rewrite rank_unsorted, sorted_reverse_Permutation, list_elem_of_fmap.
  set (raw := predict _). split.
  - intros ([v t] & [= -> ->] & Hin). simpl.
    apply list_elem_of_lookup in Hin as [i Hi].
    apply lookup_zip_with_Some in Hi as (v' & t' & [= <- <-] & Hv & Ht).
    by exists i, v.
  - intros (i & v & Ht & Hv & ->). exists (v, test). split; [done|].
    apply list_elem_of_lookup. exists i. apply lookup_zip_with_Some.
    by exists v, test.
Qed.

(** X5: [zip] stops at the shorter list: when the model returns fewer
    scores than there are tests the tests beyond the last score are left out
    of the ranked list, and scores beyond the last test are ignored. *)
Theorem rank_truncates predict tests dependencies changed :
  (rank predict tests dependencies changed).*2
  ≡ₚ take (length (predict (map (λ t, bfs_features t dependencies changed)
                                tests))) tests.
Proof.
  rewrite rank_unsorted, sorted_reverse_Permutation, <- list_fmap_compose.
  change (snd ∘ _) with (@snd Q string). by rewrite snd_zip_take.
Qed.

(** X6: a test that is not in the change set is ranked with the score the
    model returned for it. *)
Theorem rank_unchanged_test predict tests dependencies changed (i : nat)
    test v :
  tests !! i = Some test →
  predict (map (λ t, bfs_features t dependencies changed) tests) !! i
  = Some v →
  test ∉ changed →
  (v, test) ∈ rank predict tests dependencies changed.
Proof.
  intros Ht Hv Hunchanged. apply elem_of_rank. exists i, v.
  by rewrite decide_False.
Qed.

Lemma rank_unchanged_test_witness :
  (1 # 3, "t0")
  ∈ rank (λ features, map (λ _, 1 # 3) features) ["t0"; "t1"] diamond
      {["t1"]}.
Proof.
  apply (rank_unchanged_test _ _ _ _ 0%nat); [done|done|].
  by rewrite elem_of_singleton.
Defined.

(** X7: with scores below 1 from the model, every test of the change set is
    ranked before every test that is not in it. *)
Theorem rank_changed_first predict tests dependencies changed (i j : nat)
    p q :
  Forall (λ v, (v < 1)%Q)
    (predict (map (λ t, bfs_features t dependencies changed) tests)) →
  rank predict tests dependencies changed !! i = Some p →
  rank predict tests dependencies changed !! j = Some q →
  p.2 ∈ changed → q.2 ∉ changed → (i < j)%nat.
Proof.
  intros Hbelow Hi Hj Hp Hq.
  destruct p as [sp tp], q as [sq tq]; simpl in *.
  assert (sp = 1%Q) as ->.
  { apply list_elem_of_lookup_2, elem_of_rank in Hi
      as (? & ? & _ & _ & ->). by rewrite decide_True. }
  assert (sq < 1)%Q as Hsq.
  { apply list_elem_of_lookup_2, elem_of_rank in Hj
      as (k & v & _ & Hv & ->). rewrite decide_False by done.
    rewrite Forall_forall in Hbelow. apply Hbelow.
    by eapply list_elem_of_lookup_2. }
  destruct (Nat.lt_trichotomy i j) as [?|[->|Hji]]; [done| |].
  - rewrite Hi in Hj. injection Hj as <- <-. done.
  - destruct (StronglySorted_lookup_lt ranks_before _ j i (sq, tq) (1%Q, tp)
                (sorted_reverse_sorted _) Hji Hj Hi) as [Hlt|[Heq _]];
      simpl in *.
    + destruct (Qlt_irrefl 1). by apply Qlt_trans with sq.
    + rewrite Heq in Hsq. by apply Qlt_irrefl in Hsq.
Qed.

Lemma rank_changed_first_witness : (0 < 1)%nat.
Proof.
  apply (rank_changed_first (λ features, map (λ _, 3 # 4) features)
           ["t0"; "t1"] diamond {["t1"]} 0%nat 1%nat (1%Q, "t1")
           (3 # 4, "t0")).
  - by repeat constructor.
  - reflexivity.
  - reflexivity.
  - by apply elem_of_singleton.
  - by rewrite elem_of_singleton.
Defined.

(** The stable descending sort of tests paired with a score that is a
    function of the test does not depend on the order of the tests. *)
Lemma sorted_reverse_functional (f : string → Q) tests1 tests2 :
  tests1 ≡ₚ tests2 →
  sorted_reverse (map (λ t, (f t, t)) tests1)
  = sorted_reverse (map (λ t, (f t, t)) tests2).
Proof.
  intros Hperm.
  apply (StronglySorted_unique_strong ranks_before).
  - intros x1 x2. rewrite !sorted_reverse_Permutation, !list_elem_of_fmap.
    intros (t1 & -> & _) (t2 & -> & _) [Hlt|[Heq H12]] [Hlt'|[Heq' H21]];
      simpl in *.
    + destruct (Qlt_irrefl (f t1)). by eapply Qlt_trans.
    + rewrite Heq' in Hlt. by apply Qlt_irrefl in Hlt.
    + rewrite Heq in Hlt'. by apply Qlt_irrefl in Hlt'.
    + by rewrite (String.leb_antisym _ _ H21 H12).
  - apply sorted_reverse_sorted.
  - apply sorted_reverse_sorted.
  - by rewrite !sorted_reverse_Permutation, Hperm.
Qed.

(** X8: when the model scores every row on its own and never returns
    not-a-number, the ranked list does not depend on the order in which the
    tests are given. *)
Theorem rank_float_order_independent sorted (model : FeatureVector → pyfloat)
    tests1 tests2 dependencies changed :
  sorted_contract sorted →
  (∀ v, is_nan (model v) = false) →
  tests1 ≡ₚ tests2 →
  rank_float sorted (map model) tests1 dependencies changed
  = rank_float sorted (map model) tests2 dependencies changed.
Proof.
  intros [_ Hnumbers] Hmodel Hperm.
  set (score_of := λ t : string,
         if decide (t ∈ changed) then 1%Q
         else match model (bfs_features t dependencies changed) with
              | Num q => q
              | NaN => 0%Q
              end).
  assert (∀ tests,
            rank_float sorted (map model) tests dependencies changed
            = map number_pair
                (sorted_reverse (map (λ t, (score_of t, t)) tests)))
    as Hrank.
  { intros tests. rewrite rank_float_unsorted, <- Hnumbers. f_equal.
    induction tests as [|t tests IH]; simpl; [done|]. rewrite IH. f_equal.
    unfold number_pair, score_of. simpl.
    destruct (decide (t ∈ changed)); [done|].
    specialize (Hmodel (bfs_features t dependencies changed)).
    by destruct (model _). }
  rewrite !Hrank. f_equal. by apply sorted_reverse_functional.
Qed.

Lemma rank_float_order_independent_witness :
  rank_float sorted_reverse_float
    (map (λ v, Num (changed_reachable_count v # 4))) ["t_a"; "t_b"; "t_c"]
    {[ "t_a" := ["S1"]; "t_b" := ["S2"]; "t_c" := ["S1"] ]} {["S1"; "t_b"]}
  = rank_float sorted_reverse_float
      (map (λ v, Num (changed_reachable_count v # 4))) ["t_c"; "t_a"; "t_b"]
      {[ "t_a" := ["S1"]; "t_b" := ["S2"]; "t_c" := ["S1"] ]} {["S1"; "t_b"]}.
Proof.
  apply rank_float_order_independent.
  - apply sorted_reverse_float_contract.
  - done.
  - symmetry. apply (Permutation_cons_append ["t_a"; "t_b"] "t_c").
Defined.

(** ** Hashing and persisted state *)

Section hashing.
Variable sha1 : string → string.
Variable join : string → string → string.
Variable fs : gmap string string.
Variable project_folder : string.

Lemma hash_files_None files acc :
  hash_files sha1 join fs project_folder files acc = None
  ↔ ∃ file, file ∈ files ∧ fs !! join project_folder file = None.
Proof.
  revert acc. induction files as [|file files IH]; simpl; intros acc.
  - split; [done|]. by intros (file & ?%elem_of_nil & _).
  - unfold sha1_file.
    destruct (fs !! join project_folder file) as [content|] eqn:Hfile; simpl.
    + rewrite IH. split; intros (f & Hin & Hf); exists f.
      * split; [by right|done].
      * apply elem_of_cons in Hin as [->|?]; [congruence|done].
    + split; [|done]. intros _. exists file. split; [left|done].
Qed.

Lemma hash_files_lookup files acc new_hashes file :
  hash_files sha1 join fs project_folder files acc = Some new_hashes →
  new_hashes !! file
  = if decide (file ∈ files) then sha1 <$> fs !! join project_folder file
    else acc !! file.
Proof.
  revert acc. induction files as [|f files IH]; intros acc.
  - intros [= <-]. case_decide as Hin; [by apply elem_of_nil in Hin|done].
  - simpl. unfold sha1_file.
    destruct (fs !! join project_folder f) as [content|] eqn:Hf; [|done].
    simpl. intros Hrest. rewrite (IH _ Hrest).
    destruct (decide (file ∈ files)) as [Hin|Hnotin].
    + by rewrite decide_True by (by right).
    + rewrite lookup_insert. destruct (decide (f = file)) as [->|Hne].
      * rewrite decide_True by left. by rewrite Hf.
      * rewrite decide_False; [done|].
        intros [?|?]%elem_of_cons; congruence.
Qed.

End hashing.

(** X9: change detection fails exactly when one of the test or source files
    cannot be opened; when it succeeds, the new mapping sends exactly the
    current files to the digest of their content, also when a path occurs
    more than once in the two lists. *)
Theorem tp_changed_hashes sha1 join json_load fs project_folder test_files
    source_files :
  (tp_changed sha1 join json_load fs project_folder test_files source_files
   = None
   ↔ ∃ file, file ∈ test_files ++ source_files
             ∧ fs !! join project_folder file = None)
  ∧ ∀ new_hashes changed,
      tp_changed sha1 join json_load fs project_folder test_files
        source_files = Some (new_hashes, changed) →
      ∀ file hash,
        new_hashes !! file = Some hash
        ↔ file ∈ test_files ++ source_files
          ∧ ∃ content, fs !! join project_folder file = Some content
                       ∧ hash = sha1 content.
Proof.
  unfold tp_changed. split.
  - rewrite <- (hash_files_None sha1 join fs project_folder _ ∅).
    by destruct (hash_files _ _ _ _ _ _).
  - intros new_hashes changed.
    destruct (hash_files _ _ _ _ _ _) as [new|] eqn:Hnew; [|done].
    intros [= -> <-] file hash.
    rewrite (hash_files_lookup _ _ _ _ _ _ _ file Hnew).
    case_decide as Hin.
    + rewrite fmap_Some. split.
      * intros (content & Hfile & ->). split; [done|]. by exists content.
      * intros (_ & content & Hfile & ->). by exists content.
    + rewrite lookup_empty. split; [done|]. by intros [? _].
Qed.

(** X10: nothing is reported as changed exactly when every current file has
    the hash that the previous run recorded for it. *)
Theorem changed_files_empty old_hashes new_hashes :
  changed_files old_hashes new_hashes = ∅ ↔ new_hashes ⊆ old_hashes.
Proof.
  rewrite map_subseteq_spec. split.
  - intros Hempty file hash Hnew.
    destruct (decide (old_hashes !! file = Some hash)) as [?|Hne]; [done|].
    assert (file ∈ changed_files old_hashes new_hashes) as Hin.
    { apply elem_of_changed_files. exists hash. split; [done|].
      destruct (old_hashes !! file); [by right|by left]. }
    rewrite Hempty in Hin. by apply elem_of_empty in Hin.
  - intros Hsub. apply set_eq. intros file.
    rewrite elem_of_changed_files, elem_of_empty. split; [|done].
    intros (hash & Hnew & Hdiff). apply Hsub in Hnew.
    destruct Hdiff; congruence.
Qed.

Section persistence_facts.
Variable join : string → string → string.
Variable makedirs_ok : string → bool.
Variable open_ok : string → bool.
Variable dump_ranked : list (Q * string) → string.
Variable dump_dependencies : gmap string (list string) → string.
Variable dump_changed : list string → string.
Variable dump_hashes : gmap string string → string.

Lemma fasttp_dir_spec w path :
  (fasttp_dir join makedirs_ok w path).1 = join path FOLDER
  ∧ w_files (fasttp_dir join makedirs_ok w path).2 = w_files w.
Proof.
  unfold fasttp_dir. by repeat case_match.
Qed.

(** [dump_json] leaves every other file as it was, and when it returns the
    file it names holds the content. *)
Lemma dump_json_spec w path name content ok w' :
  dump_json join makedirs_ok open_ok w path name content = (ok, w') →
  (∀ p, p ≠ join (join path FOLDER) (name +:+ ".json") →
        w_files w' !! p = w_files w !! p)
  ∧ (ok = true →
     w_files w' !! join (join path FOLDER) (name +:+ ".json")
     = Some content).
Proof.
  unfold dump_json.
  destruct (fasttp_dir join makedirs_ok w path) as [dir w1] eqn:Hdir.
  pose proof (fasttp_dir_spec w path) as [Hpath Hfiles].
  rewrite Hdir in Hpath, Hfiles. simpl in Hpath, Hfiles. subst dir.
  unfold write_file. destruct (_ && _).
  - intros [= <- <-]. cbn [w_files]. split.
    + intros p Hp. by rewrite lookup_insert_ne, Hfiles.
    + intros _. by rewrite lookup_insert_eq.
  - intros [= <- <-]. split; [|done]. intros p _. by rewrite Hfiles.
Qed.

Lemma save_jsons_spec w project_folder ranked dependencies changed
    new_hashes ok w' :
  save_jsons join makedirs_ok open_ok dump_ranked dump_dependencies
    dump_changed dump_hashes w project_folder ranked dependencies changed
    new_hashes = (ok, w') →
  (∀ p, p ∉ map (join (join project_folder FOLDER))
              ["ranked.json"; "dependencies.json"; "changed.json";
               "hashes.json"] →
        w_files w' !! p = w_files w !! p)
  ∧ (ok = true →
     w_files w' !! join (join project_folder FOLDER) "hashes.json"
     = Some (dump_hashes new_hashes)).
Proof.
  unfold save_jsons.
  destruct (dump_json _ _ _ w _ "ranked" _) as [ok1 w1] eqn:H1.
  destruct (dump_json _ _ _ w1 _ "dependencies" _) as [ok2 w2] eqn:H2.
  destruct (dump_json _ _ _ w2 _ "changed" _) as [ok3 w3] eqn:H3.
  destruct (dump_json _ _ _ w3 _ "hashes" _) as [ok4 w4] eqn:H4.
  apply dump_json_spec in H1 as [F1 _], H2 as [F2 _], H3 as [F3 _],
    H4 as [F4 S4].
  simpl in F1, F2, F3, F4, S4.
  assert (∀ p, p ∉ map (join (join project_folder FOLDER))
                     ["ranked.json"; "dependencies.json"; "changed.json";
                      "hashes.json"] →
               p ≠ join (join project_folder FOLDER) "ranked.json"
               ∧ p ≠ join (join project_folder FOLDER) "dependencies.json"
               ∧ p ≠ join (join project_folder FOLDER) "changed.json"
               ∧ p ≠ join (join project_folder FOLDER) "hashes.json")
    as Hother.
  { intros p Hp. simpl in Hp. rewrite !not_elem_of_cons in Hp. tauto. }
  destruct ok1; simpl; [|intros [= <- <-]; split; [|done];
    intros p (? & _)%Hother; by apply F1].
  destruct ok2; simpl; [|intros [= <- <-]; split; [|done];
    intros p (? & ? & _)%Hother; by rewrite F2, F1].
  destruct ok3; simpl; [|intros [= <- <-]; split; [|done];
    intros p (? & ? & ? & _)%Hother; by rewrite F3, F2, F1].
  intros [= <- <-]. split; [|done].
  intros p (? & ? & ? & ?)%Hother. by rewrite F4, F3, F2, F1.
Qed.

End persistence_facts.

Lemma hash_files_ext sha1 join fs1 fs2 project_folder files acc :
  (∀ file, file ∈ files →
           fs1 !! join project_folder file = fs2 !! join project_folder file) →
  hash_files sha1 join fs1 project_folder files acc
  = hash_files sha1 join fs2 project_folder files acc.
Proof.
  revert acc. induction files as [|file files IH]; intros acc Hsame;
    simpl; [done|].
  unfold sha1_file. rewrite (Hsame file) by left.
  destruct (fs2 !! join project_folder file); simpl; [|done].
  apply IH. intros f Hf. apply Hsame. by right.
Qed.

(** X11: what [save_jsons] stores is what [load_hashes] returns on the next
    run, whenever [json.load] reads back what [json.dump] wrote. *)
Theorem save_jsons_load_hashes join makedirs_ok open_ok dump_ranked
    dump_dependencies dump_changed dump_hashes json_load w project_folder
    ranked dependencies changed new_hashes w' :
  save_jsons join makedirs_ok open_ok dump_ranked dump_dependencies
    dump_changed dump_hashes w project_folder ranked dependencies changed
    new_hashes = (true, w') →
  json_load (dump_hashes new_hashes) = Some new_hashes →
  load_hashes join json_load (w_files w') project_folder = new_hashes.
Proof.
  intros Hsave Hload.
  apply save_jsons_spec in Hsave as [_ Hstored].
  unfold load_hashes. by rewrite (Hstored eq_refl), Hload.
Qed.

Lemma save_jsons_load_hashes_witness :
  load_hashes example_join example_load
    (w_files
       (save_jsons example_join (λ _, true) (λ _, true) (λ _, "[]")
          (λ _, "{}") (λ _, "[]") example_dump_hashes example_world "p" []
          ∅ ∅ {[ "test_a.py" := "assert a"; "a.py" := "a = 1" ]}).2) "p"
  = {[ "test_a.py" := "assert a"; "a.py" := "a = 1" ]}.
Proof.
  eapply (save_jsons_load_hashes example_join (λ _, true) (λ _, true)
            (λ _, "[]") (λ _, "{}") (λ _, "[]") example_dump_hashes
            example_load example_world "p" [] ∅ ∅).
  - by vm_compute.
  - by vm_compute.
Defined.

(** X12: [save_jsons] changes no file other than the four it writes,
    whether it returns or raises. *)
Theorem save_jsons_other_files join makedirs_ok open_ok dump_ranked
    dump_dependencies dump_changed dump_hashes w project_folder ranked
    dependencies changed new_hashes p :
  p ∉ map (join (join project_folder FOLDER))
        ["ranked.json"; "dependencies.json"; "changed.json"; "hashes.json"] →
  w_files
    (save_jsons join makedirs_ok open_ok dump_ranked dump_dependencies
       dump_changed dump_hashes w project_folder ranked dependencies changed
       new_hashes).2 !! p
  = w_files w !! p.
Proof.
  intros Hp.
  destruct (save_jsons _ _ _ _ _ _ _ _ _ _ _ _ _) as [ok w'] eqn:Hsave.
  apply save_jsons_spec in Hsave as [Hother _]. by apply Hother.
Qed.

Lemma save_jsons_other_files_witness :
  w_files
    (save_jsons example_join (λ _, true) (λ _, true) (λ _, "[]")
       (λ _, "{}") (λ _, "[]") example_dump_hashes example_world "p" []
       ∅ ∅ ∅).2 !! "p/a.py"
  = w_files example_world !! "p/a.py".
Proof.
  apply save_jsons_other_files. simpl.
  rewrite !not_elem_of_cons. repeat split; try done.
  apply not_elem_of_nil.
Defined.

(** X13: when [.fasttp] is not a directory and cannot be made one (its name
    is taken by a file, or [makedirs] fails and the failure is swallowed),
    [save_jsons] raises at the first [open] and writes nothing. *)
Theorem save_jsons_no_directory join makedirs_ok open_ok dump_ranked
    dump_dependencies dump_changed dump_hashes w project_folder ranked
    dependencies changed new_hashes :
  join project_folder FOLDER ∉ w_dirs w →
  join project_folder FOLDER ∈ dom (w_files w)
  ∨ makedirs_ok (join project_folder FOLDER) = false →
  save_jsons join makedirs_ok open_ok dump_ranked dump_dependencies
    dump_changed dump_hashes w project_folder ranked dependencies changed
    new_hashes = (false, w).
Proof.
  intros Hnodir Hstuck.
  assert (fasttp_dir join makedirs_ok w project_folder
          = (join project_folder FOLDER, w)) as Hdir.
  { unfold fasttp_dir, path_exists. case_bool_decide as Hexists; [done|].
    destruct Hstuck as [?| ->]; [|done]. destruct Hexists. by right. }
  unfold save_jsons, dump_json at 1. rewrite Hdir. unfold write_file.
  rewrite bool_decide_false by tauto. done.
Qed.

Lemma save_jsons_no_directory_witness :
  save_jsons example_join (λ _, false) (λ _, true) (λ _, "[]")
    (λ _, "{}") (λ _, "[]") example_dump_hashes example_world "p" []
    ∅ ∅ ∅ = (false, example_world).
Proof.
  apply save_jsons_no_directory.
  - by vm_compute.
  - by right.
Defined.

(** X14: a second run over files that have not been modified finds nothing
    changed: after a run whose results were saved, change detection on the
    same files returns the same hashes and the empty change set, provided
    none of the hashed files is one of the four saved files and [json.load]
    reads back what [json.dump] wrote. *)
Theorem second_run_nothing_changed sha1 join makedirs_ok open_ok
    dump_ranked dump_dependencies dump_changed dump_hashes json_load w
    project_folder test_files source_files ranked dependencies new_hashes
    changed w' :
  tp_changed sha1 join json_load (w_files w) project_folder test_files
    source_files = Some (new_hashes, changed) →
  save_jsons join makedirs_ok open_ok dump_ranked dump_dependencies
    dump_changed dump_hashes w project_folder ranked dependencies changed
    new_hashes = (true, w') →
  json_load (dump_hashes new_hashes) = Some new_hashes →
  (∀ file, file ∈ test_files ++ source_files →
           join project_folder file
           ∉ map (join (join project_folder FOLDER))
               ["ranked.json"; "dependencies.json"; "changed.json";
                "hashes.json"]) →
  tp_changed sha1 join json_load (w_files w') project_folder test_files
    source_files = Some (new_hashes, ∅).
Proof.
  intros Hfirst Hsave Hload Hapart.
  pose proof (save_jsons_spec _ _ _ _ _ _ _ _ _ _ _ _ _ _ _ Hsave)
    as [Hother Hstored].
  unfold tp_changed in *.
  rewrite (hash_files_ext sha1 join (w_files w') (w_files w)).
  - destruct (hash_files _ _ _ _ _ _) as [new|]; [|done].
    injection Hfirst as -> _.
    unfold load_hashes. rewrite (Hstored eq_refl), Hload.
    by rewrite changed_files_same.
  - intros file Hfile. by apply Hother, Hapart.
Qed.

Lemma second_run_nothing_changed_witness :
  tp_changed (λ content, content) example_join example_load
    (w_files
       (save_jsons example_join (λ _, true) (λ _, true) (λ _, "[]")
          (λ _, "{}") (λ _, "[]") example_dump_hashes example_world "p" []
          ∅ {[ "test_a.py"; "a.py" ]}
          {[ "test_a.py" := "assert a"; "a.py" := "a = 1" ]}).2)
    "p" ["test_a.py"] ["a.py"]
  = Some ({[ "test_a.py" := "assert a"; "a.py" := "a = 1" ]}, ∅).
Proof.
  eapply (second_run_nothing_changed (λ content, content) example_join
            (λ _, true) (λ _, true) (λ _, "[]") (λ _, "{}") (λ _, "[]")
            example_dump_hashes example_load example_world "p"
            ["test_a.py"] ["a.py"] [] ∅).
  - by vm_compute.
  - by vm_compute.
  - by vm_compute.
  - intros file Hfile. simpl in Hfile.
    rewrite !elem_of_cons in Hfile.
    destruct Hfile as [ -> |[ -> |?%elem_of_nil]]; [| |done];
      simpl; rewrite !not_elem_of_cons; repeat split;
      try (by vm_compute); apply not_elem_of_nil.
Defined.

(** ** Failures and overwriting in [get_dependencies] *)

Section graph_more.
Variable relpath : string → string → string.
Variable files : list (string * entry).
Variable project_folder : string.

Lemma resolve_None deps :
  resolve relpath files project_folder deps = None
  ↔ ∃ dep, dep ∈ deps ∧ files_lookup files dep = None.
Proof.
  unfold resolve.
  destruct (mapM (files_lookup files) deps) as [found|] eqn:Hfound.
  - split; [done|]. intros (dep & Hin & Hnone).
    apply mapM_Some_1 in Hfound.
    apply list_elem_of_lookup in Hin as [i Hi].
    destruct (Forall2_lookup_l _ _ _ _ _ Hfound Hi) as (value & _ & Hvalue).
    congruence.
  - split; [|done]. intros _.
    apply mapM_None, Exists_exists in Hfound as (dep & Hin & Hnone).
    by exists dep.
Qed.

Lemma add_items_None deps items acc :
  add_items relpath files project_folder deps items acc = None
  ↔ items ≠ [] ∧ resolve relpath files project_folder deps = None.
Proof.
  revert acc. induction items as [|[[path1 ext1] src1] items IH];
    simpl; intros acc.
  - split; [done|]. by intros [? _].
  - destruct (resolve relpath files project_folder deps) as [edges|].
    + rewrite IH. split; [by intros [_ ?]|by intros [_ ?]].
    + done.
Qed.

Lemma add_files_None values acc :
  add_files relpath files project_folder values acc = None
  ↔ ∃ key deps items,
      (key, (deps, items)) ∈ values ∧ deps ≠ [] ∧ items ≠ []
      ∧ resolve relpath files project_folder deps = None.
Proof.
  revert acc. induction values as [|[key [deps items]] values IH];
    simpl; intros acc.
  - split; [done|]. by intros (? & ? & ? & ?%elem_of_nil & _).
  - destruct deps as [|dep deps].
    + rewrite IH. split; intros (k & d & i & Hin & Hrest);
        exists k, d, i; (split; [|done]).
      * by right.
      * apply elem_of_cons in Hin as [[= -> -> ->]|?]; [|done].
        by destruct Hrest.
    + destruct (add_items _ _ _ _ _ _) as [acc'|] eqn:Hitems.
      * rewrite IH. split; intros (k & d & i & Hin & Hd & Hi & Hres);
          exists k, d, i; (split; [|done]).
        -- by right.
        -- apply elem_of_cons in Hin as [[= -> -> ->]|?]; [|done].
           assert (add_items relpath files project_folder (dep :: deps) items
                     acc = None) by (by apply add_items_None).
           congruence.
      * apply add_items_None in Hitems as [Hi Hres]. split; [|done].
        intros _. exists key, (dep :: deps), items.
        split; [left|done].
Qed.

(** The list written for an item of the entry whose items are added. *)
Lemma add_items_written deps items acc graph (it : item) :
  add_items relpath files project_folder deps items acc = Some graph →
  it ∈ items →
  graph !! relpath it.1.1 project_folder
  = resolve relpath files project_folder deps.
Proof.
  revert acc. induction items as [|[[path1 ext1] src1] items IH];
    simpl; intros acc Hgraph Hit; [by apply elem_of_nil in Hit|].
  destruct (resolve relpath files project_folder deps) as [edges|] eqn:Hres;
    [|done].
  destruct (decide (it ∈ items)) as [Hin|Hnotin].
  - by apply (IH _ Hgraph).
  - apply elem_of_cons in Hit as [->|?]; [|done]. simpl.
    destruct (graph !! relpath path1 project_folder) as [edges'|] eqn:Hpath.
    + destruct (add_items_lookup relpath files project_folder _ _ _ _ _ _
                  Hgraph Hpath)
        as [Hacc|[Hres' _]]; [|congruence].
      by rewrite lookup_insert_eq in Hacc.
    + assert (relpath path1 project_folder ∈ dom graph) as Hdom.
      { apply (add_items_dom relpath files project_folder _ _ _ _ Hgraph).
        left.
        rewrite dom_insert. set_solver. }
      apply elem_of_dom in Hdom as [? ?]. congruence.
Qed.

(** Entries that do not write a path leave its list alone. *)
Lemma add_files_not_written values acc graph path :
  add_files relpath files project_folder values acc = Some graph →
  (∀ deps, ¬ written_by relpath project_folder values path deps) →
  graph !! path = acc !! path.
Proof.
  intros Hgraph Hnot.
  destruct (graph !! path) as [edges|] eqn:Hpath.
  - destruct (add_files_lookup relpath files project_folder _ _ _ _ _
                Hgraph Hpath)
      as [?|(deps & Hw & _)]; [done|]. by destruct (Hnot deps).
  - symmetry. apply not_elem_of_dom. intros Hacc.
    apply not_elem_of_dom in Hpath. apply Hpath.
    apply (add_files_dom relpath files project_folder _ _ _ Hgraph).
    by left.
Qed.

Lemma add_files_app values1 values2 acc :
  add_files relpath files project_folder (values1 ++ values2) acc
  = match add_files relpath files project_folder values1 acc with
    | Some acc' => add_files relpath files project_folder values2 acc'
    | None => None
    end.
Proof.
  revert acc. induction values1 as [|[key [deps items]] values1 IH];
    simpl; intros acc; [done|].
  destruct deps as [|dep deps]; [apply IH|].
  destruct (add_items _ _ _ _ _ _); [apply IH|done].
Qed.

End graph_more.

Lemma files_lookup_Some files dep value :
  files_lookup files dep = Some value → (dep, value) ∈ files.
Proof.
  induction files as [|[key v] files IH]; simpl; [done|].
  case_decide as Hkey.
  - intros [= <-]. subst key. left.
  - intros Hrest. right. by apply IH.
Qed.

(** X15: [get_dependencies] raises [KeyError] exactly when a file that has
    at least one item depends on an identifier that is not a key of the
    extractor's output. *)
Theorem get_dependencies_KeyError (Profile : Type) extract relpath
    (profile : Profile) inputs project_folder :
  get_dependencies Profile extract relpath profile inputs project_folder
  = None
  ↔ ∃ key deps items dep,
      (key, (deps, items)) ∈ (extract profile inputs).1 ∧ items ≠ []
      ∧ dep ∈ deps ∧ files_lookup (extract profile inputs).1 dep = None.
Proof.
  unfold get_dependencies.
  destruct (extract profile inputs) as [files count]. simpl.
  rewrite add_files_None. setoid_rewrite resolve_None. split.
  - intros (key & deps & items & Hin & _ & Hitems & dep & Hdep & Hnone).
    by exists key, deps, items, dep.
  - intros (key & deps & items & dep & Hin & Hitems & Hdep & Hnone).
    exists key, deps, items. repeat split; try done.
    + intros ->. by apply elem_of_nil in Hdep.
    + by exists dep.
Qed.

(** X16: when several files have an item with the same relative path, the
    list stored for that path is the one of the last such file in the
    extractor's order: each one starts the list anew. *)
Theorem get_dependencies_last_writer (Profile : Type) extract relpath
    (profile : Profile) inputs project_folder before key deps items after
    count (it : item) graph :
  extract profile inputs = (before ++ (key, (deps, items)) :: after, count) →
  deps ≠ [] → it ∈ items →
  (∀ deps', ¬ written_by relpath project_folder after
                (relpath it.1.1 project_folder) deps') →
  get_dependencies Profile extract relpath profile inputs project_folder
  = Some graph →
  graph !! relpath it.1.1 project_folder
  = resolve relpath (before ++ (key, (deps, items)) :: after) project_folder
      deps.
Proof.
  intros Hfiles Hdeps Hit Hlast. unfold get_dependencies. rewrite Hfiles.
  set (files := before ++ (key, (deps, items)) :: after).
  unfold files at 2. rewrite add_files_app.
  destruct (add_files relpath files project_folder before ∅) as [acc|];
    [|done].
  simpl. destruct deps as [|dep deps]; [done|].
  destruct (add_items relpath files project_folder (dep :: deps) items acc)
    as [acc'|] eqn:Hitems; [|done].
  intros Hgraph.
  rewrite (add_files_not_written _ _ _ _ _ _ _ Hgraph Hlast).
  by apply (add_items_written _ _ _ _ _ _ _ _ Hitems).
Qed.

Lemma get_dependencies_last_writer_witness :
  ({[ "a.py" := ["y.py"] ]} : gmap string (list string)) !! "a.py"
  = resolve (λ path _, path)
      ([("m1", (["x"], [("a.py", "py", "s1")]))]
       ++ ("m2", (["y"], [("a.py", "py", "s2")]))
          :: [("x", ([], [("x.py", "py", "s1")]));
              ("y", ([], [("y.py", "py", "s2")]))]) "" ["y"].
Proof.
  apply (get_dependencies_last_writer unit
           (λ _ _, ([("m1", (["x"], [("a.py", "py", "s1")]))]
                    ++ ("m2", (["y"], [("a.py", "py", "s2")]))
                       :: [("x", ([], [("x.py", "py", "s1")]));
                           ("y", ([], [("y.py", "py", "s2")]))], 4))
           (λ path _, path) tt [] "" _ "m2" _ _ _ 4 ("a.py", "py", "s2")).
  - reflexivity.
  - done.
  - by left.
  - intros deps' (k & items' & it' & Hin & Hne & _).
    rewrite !elem_of_cons in Hin.
    destruct Hin as [[= _ -> _]|[[= _ -> _]|?%elem_of_nil]]; done.
  - by vm_compute.
Defined.

(** X17: every edge of the graph leads to the relative path of an item of
    a file of the extractor's output. *)
Theorem get_dependencies_edges (Profile : Type) extract relpath
    (profile : Profile) inputs project_folder graph path edges target :
  get_dependencies Profile extract relpath profile inputs project_folder
  = Some graph →
  graph !! path = Some edges → target ∈ edges →
  ∃ key deps items (it : item),
    (key, (deps, items)) ∈ (extract profile inputs).1 ∧ it ∈ items
    ∧ relpath it.1.1 project_folder = target.
Proof.
  unfold get_dependencies.
  destruct (extract profile inputs) as [files count]. simpl.
  intros Hgraph Hpath Htarget.
  destruct (add_files_lookup relpath files project_folder _ _ _ _ _
              Hgraph Hpath) as [Hempty|(deps & _ & Hres)];
    [by rewrite lookup_empty in Hempty|].
  unfold resolve in Hres.
  destruct (mapM (files_lookup files) deps) as [found|] eqn:Hfound; [|done].
  injection Hres as <-. apply mapM_Some_1 in Hfound.
  apply list_elem_of_In, in_concat in Htarget as (paths & Hpaths & Htarget).
  apply list_elem_of_In in Hpaths, Htarget.
  apply list_elem_of_fmap in Hpaths as ([deps' items'] & -> & Hvalue).
  apply list_elem_of_fmap in Htarget as (it & -> & Hit).
  apply list_elem_of_lookup in Hvalue as [i Hi].
  destruct (Forall2_lookup_r _ _ _ _ _ Hfound Hi) as (dep & _ & Hdep).
  apply files_lookup_Some in Hdep.
  by exists dep, deps', items', it.
Qed.

Lemma get_dependencies_edges_witness :
  ∃ key deps items (it : item),
    (key, (deps, items)) ∈ example_files ∧ it ∈ items
    ∧ example_relpath it.1.1 "p" = "lib/m.py".
Proof.
  apply (get_dependencies_edges unit (λ _ _, (example_files, 2))
           example_relpath tt ["p/tests"; "p/src"] "p"
           {[ "tests/test_m.py" := ["src/m.py"; "lib/m.py"] ]}
           "tests/test_m.py" ["src/m.py"; "lib/m.py"]).
  - by vm_compute.
  - done.
  - right. left.
Defined.

(** ** File discovery *)

(** Induction on a directory tree, with the hypothesis for every
    sub-directory. *)
Lemma dirtree_ind (P : dirtree → Prop) :
  (∀ dirs names, Forall (λ entry, P entry.2) dirs → P (DirTree dirs names)) →
  ∀ tree, P tree.
Proof.
  intros step. fix IH 1. intros [dirs names]. apply step.
  induction dirs as [|entry dirs IHdirs]; constructor; [apply IH|done].
Qed.

Lemma rsplit_dot_None name : rsplit_dot name = None ↔ has_dot name = false.
Proof.
  induction name as [|c rest IH]; simpl; [done|].
  destruct (rsplit_dot rest) as [[stem ext]|].
  - split; [done|]. intros [_ Hrest]%orb_false_iff.
    by apply IH in Hrest.
  - destruct (Ascii.eqb c dot); simpl; [done|]. by rewrite <- IH.
Qed.

(** [rsplit_dot] cuts a name at its last dot. *)
Lemma rsplit_dot_Some name stem ext :
  rsplit_dot name = Some (stem, ext)
  ↔ name = stem +:+ "." +:+ ext ∧ has_dot ext = false.
Proof.
  split.
  - revert stem. induction name as [|c rest IH]; simpl; intros stem; [done|].
    destruct (rsplit_dot rest) as [[stem' ext']|] eqn:Hrest.
    + intros [= <- <-]. destruct (IH stem' eq_refl) as [-> Hext]. done.
    + destruct (Ascii.eqb c dot) eqn:Hc; [|done].
      intros [= <- <-]. apply Ascii.eqb_eq in Hc as ->.
      split; [done|]. by apply rsplit_dot_None.
  - intros [-> Hext]. induction stem as [|c stem IH]; simpl.
    + apply rsplit_dot_None in Hext.
      change ("" +:+ ext) with ext. by rewrite Hext.
    + by rewrite IH.
Qed.

Section file_discovery_facts.
Variable join : string → string → string.
Variable Profile : Type.
Variable in_profile : string → Profile → bool.
Variable profile : Profile.

Lemma elem_of_matching root names full :
  full ∈ matching join Profile in_profile root profile names
  ↔ ∃ name stem ext,
      name ∈ names ∧ name = stem +:+ "." +:+ ext ∧ has_dot ext = false
      ∧ in_profile ext profile = true ∧ full = join root name.
Proof.
  unfold matching. rewrite list_elem_of_In, in_flat_map.
  setoid_rewrite <- list_elem_of_In. split.
  - intros (name & Hname & Hfull).
    destruct (rsplit_dot name) as [[stem ext]|] eqn:Hsplit;
      [|by apply elem_of_nil in Hfull].
    destruct (in_profile ext profile) eqn:Hext;
      [|by apply elem_of_nil in Hfull].
    apply list_elem_of_singleton in Hfull as ->.
    apply rsplit_dot_Some in Hsplit as [Hname' Hdot].
    by exists name, stem, ext.
  - intros (name & stem & ext & Hname & Hsplit & Hdot & Hext & ->).
    exists name. split; [done|].
    rewrite (proj2 (rsplit_dot_Some name stem ext)) by done.
    rewrite Hext. by apply list_elem_of_singleton.
Qed.

Lemma elem_of_walk_files tree root full :
  full ∈ walk_files join Profile in_profile profile root tree
  ↔ ∃ ds name stem ext,
      in_tree tree ds name ∧ Forall (λ d, hidden d = false) ds
      ∧ name = stem +:+ "." +:+ ext ∧ has_dot ext = false
      ∧ in_profile ext profile = true
      ∧ full = join (foldl join root ds) name.
Proof.
  revert root.
  induction tree as [dirs names IH] using dirtree_ind. intros root.
  simpl. rewrite elem_of_app, elem_of_matching.
  rewrite (list_elem_of_In (flat_map _ _) full), in_flat_map.
  setoid_rewrite <- list_elem_of_In. rewrite Forall_forall in IH. split.
  - intros [(name & stem & ext & Hname & Hrest)
           |([d sub] & Hentry & Hfull)].
    + exists [], name, stem, ext. split; [by constructor|]. by split.
    + simpl in Hfull. destruct (hidden d) eqn:Hd;
        [by apply elem_of_nil in Hfull|].
      apply (IH (d, sub) Hentry) in Hfull
        as (ds & name & stem & ext & Htree & Hds & Hrest).
      exists (d :: ds), name, stem, ext.
      split; [by econstructor|]. split; [by constructor|]. done.
  - intros (ds & name & stem & ext & Htree & Hds & Hrest).
    inv Htree.
    + left. by exists name, stem, ext.
    + right. exists (d, sub). split; [done|]. simpl.
      apply Forall_cons in Hds as [-> Hds].
      apply (IH (d, sub)); [done|]. by exists ds0, name, stem, ext.
Qed.

End file_discovery_facts.

(** X18: [get_files] yields exactly the files that lie below the path
    through directories whose names do not start with a dot, and whose name
    ends, after its last dot, in an extension of the profile; it yields
    them under the name joined from the path, the directories and the file
    name. *)
Theorem get_files_spec join (Profile : Type) in_profile listing path
    (profile : Profile) full :
  full ∈ get_files join Profile in_profile listing path profile
  ↔ ∃ tree ds name stem ext,
      listing path = Some tree ∧ in_tree tree ds name
      ∧ Forall (λ d, hidden d = false) ds
      ∧ name = stem +:+ "." +:+ ext ∧ has_dot ext = false
      ∧ in_profile ext profile = true
      ∧ full = join (foldl join path ds) name.
Proof.
  unfold get_files. destruct (listing path) as [tree|].
  - rewrite elem_of_walk_files. split.
    + intros (ds & name & stem & ext & Hrest).
      by exists tree, ds, name, stem, ext.
    + intros (tree' & ds & name & stem & ext & [= <-] & Hrest).
      by exists ds, name, stem, ext.
  - split; [by intros ?%elem_of_nil|].
    by intros (? & ? & ? & ? & ? & [=] & _).
Qed.

(** A directory whose name starts with a dot is never entered, so what it
    holds has no influence on the result; this is what keeps the files saved
    under [FOLDER] out of the next run. *)
Lemma walk_files_skips_hidden join (Profile : Type) in_profile
    (profile : Profile) root dirs1 d sub dirs2 names :
  hidden d = true →
  walk_files join Profile in_profile profile root
    (DirTree (dirs1 ++ (d, sub) :: dirs2) names)
  = walk_files join Profile in_profile profile root
      (DirTree (dirs1 ++ dirs2) names).
Proof.
  intros Hd. simpl. f_equal. rewrite !flat_map_app. simpl.
  by rewrite Hd.
Qed.

(** Hidden directories are skipped at any depth; a hidden file is not, and
    only the text after the last dot counts as the extension. *)
Example get_files_example :
  walk_files example_join unit (λ ext _, bool_decide (ext = "py")) tt "p"
    (DirTree [("src", DirTree [(".git", DirTree [] ["hook.py"])]
                        ["a.py"; "README"; "b.tar.py"; ".py"; "c.pyc"]);
              (".fasttp", DirTree [] ["x.py"])]
       ["setup.py"])
  = ["p/setup.py"; "p/src/a.py"; "p/src/b.tar.py"; "p/src/.py"].
Proof. by vm_compute. Qed.

(** ** The pipeline *)

(** With an empty change set every test has the features of a test that
    reaches nothing. *)
Lemma bfs_features_nothing_changed test dependencies :
  bfs_features test dependencies ∅
  = mkFeatureVector 0 999999 (inject_Z 999999).
Proof.
  destruct (bfs_features_table dependencies ∅ test)
    as (distances & Htable & ->).
  assert (distances = ∅) as ->; [|done].
  apply map_empty. intros y.
  destruct (distances !! y) as [d|] eqn:Hy; [|done].
  apply Htable in Hy as [Hy _]. by apply elem_of_empty in Hy.
Qed.

Lemma zip_fst_scores (raw : list Q) (tests : list string) :
  zip (map fst (zip raw tests)) tests = zip raw tests.
Proof.
  revert raw. induction tests as [|t tests IH]; intros [|v raw]; simpl;
    try done.
  by rewrite IH.
Qed.

(** X19: on a run in which nothing changed the model is given the same row
    for every test, the one of a test that reaches no changed file, and the
    ranked list is the sorted list of its answers. *)
Theorem rank_nothing_changed predict tests dependencies :
  rank predict tests dependencies ∅
  = sorted_reverse
      (zip (predict (replicate (length tests)
                       (mkFeatureVector 0 999999 (inject_Z 999999))))
           tests).
Proof.
  unfold rank. f_equal.
  assert (map (λ test, bfs_features test dependencies ∅) tests
          = replicate (length tests)
              (mkFeatureVector 0 999999 (inject_Z 999999))) as ->.
  { induction tests as [|t tests IH]; simpl; [done|].
    by rewrite IH, bfs_features_nothing_changed. }
  etrans; [|apply zip_fst_scores]. do 2 f_equal.
Qed.

Lemma changed_files_no_baseline new_hashes :
  changed_files ∅ new_hashes = dom new_hashes.
Proof.
  apply set_eq. intros file.
  rewrite elem_of_changed_files, elem_of_dom. unfold is_Some.
  split; intros (hash & Hfile); exists hash; [tauto|].
  split; [done|]. left. apply lookup_empty.
Qed.

(** X20: on a first run, or whenever the stored hashes cannot be read,
    every file counts as changed, and every pair of the ranked list has
    score 1, whatever the model and the graph are; when the model returns
    one score per row, the ranked list holds every test, with score 1. *)
Theorem tp_first_run join relpath sha1 json_load fs listing
    (Profile : Type) in_profile get_profile extract load_model language
    project_folder test_folder source_folder ranked dependencies changed
    new_hashes test_files source_files :
  match fs !! join (join project_folder FOLDER) "hashes.json" with
  | Some content => json_load content = None
  | None => True
  end →
  tp join relpath sha1 json_load fs listing Profile in_profile get_profile
    extract load_model language project_folder test_folder source_folder
  = Some (ranked, dependencies, changed, new_hashes, test_files,
          source_files) →
  changed = list_to_set (test_files ++ source_files)
  ∧ (∀ score test, (score, test) ∈ ranked → score = 1%Q)
  ∧ ((∀ model features,
        load_model "model" = Some model →
        length (model features) = length features) →
     ranked ≡ₚ map (λ test, (1%Q, test)) test_files).
Proof.
  intros Hmissing. unfold tp.
  set (tests := map _ (get_files _ _ _ _ (join project_folder test_folder) _)).
  set (sources :=
         map _ (get_files _ _ _ _ (join project_folder source_folder) _)).
  destruct (tp_changed _ _ _ _ _ _ _) as [[new chg]|] eqn:Hchanged; [|done].
  destruct (get_dependencies _ _ _ _ _ _) as [graph|]; [|done].
  destruct (load_model "model") as [model|] eqn:Hmodel; [|done].
  intros [= <- <- <- <- <- <-].
  assert (chg = list_to_set (tests ++ sources)) as ->.
  { unfold tp_changed in Hchanged.
    destruct (hash_files _ _ _ _ _ _) as [new'|] eqn:Hnew; [|done].
    injection Hchanged as <- <-. apply hash_files_dom in Hnew.
    rewrite dom_empty_L, (left_id_L ∅ (∪)) in Hnew. rewrite <- Hnew.
    unfold load_hashes.
    destruct (fs !! join (join project_folder FOLDER) "hashes.json");
      [rewrite Hmissing|]; apply changed_files_no_baseline. }
  assert (∀ test, test ∈ tests → test ∈ list_to_set (C := gset string)
                                          (tests ++ sources)) as Hall.
  { intros test Htest. apply elem_of_list_to_set, elem_of_app. by left. }
  split; [done|]. split.
  - intros score test.
    intros (i & v & Htest & _ & ->)%elem_of_rank.
    rewrite decide_True; [done|].
    by eapply Hall, list_elem_of_lookup_2.
  - intros Hrows. rewrite rank_unsorted, sorted_reverse_Permutation.
    specialize (Hrows model
                  (map (λ test, bfs_features test graph
                                  (list_to_set (tests ++ sources))) tests)
                  eq_refl).
    rewrite length_map in Hrows. revert Hrows Hall.
    generalize (model (map (λ test, bfs_features test graph
                                      (list_to_set (tests ++ sources)))
                           tests)).
    generalize (list_to_set (C := gset string) (tests ++ sources)).
    clear. intros chg raw. revert raw.
    induction tests as [|t tests IH]; intros [|v raw] Hlen Hall; simpl in *;
      try done.
    rewrite decide_True by apply Hall, list_elem_of_here.
    rewrite IH; [done|lia|].
    intros test Htest. by apply Hall, list_elem_of_further.
Qed.

Lemma tp_first_run_witness :
  ({[ "t/test_a.py"; "s/a.py" ]} : gset string)
  = list_to_set (["t/test_a.py"] ++ ["s/a.py"])
  ∧ (∀ score test, (score, test) ∈ [(1%Q, "t/test_a.py")] → score = 1%Q)
  ∧ [(1%Q, "t/test_a.py")] ≡ₚ map (λ test, (1%Q, test)) ["t/test_a.py"].
Proof.
  destruct (tp_first_run example_join example_relpath (λ content, content)
              (λ _, None) example_project example_listing unit
              (λ ext _, bool_decide (ext = "py")) (λ _, tt)
              (λ _ _, ([], 0)) (λ _, Some (map (λ _, 1 # 2))) "python" "p"
              "t" "s" [(1%Q, "t/test_a.py")] ∅ {[ "t/test_a.py"; "s/a.py" ]}
              {[ "t/test_a.py" := "assert a"; "s/a.py" := "a = 1" ]}
              ["t/test_a.py"] ["s/a.py"])
    as (Hchanged & Hscore & Hranked).
  - by vm_compute.
  - by vm_compute.
  - split; [exact Hchanged|]. split; [exact Hscore|].
    apply Hranked. intros model features [= <-]. apply length_map.
Defined.

(** X21: for every test the loop body of the traversal runs at most
    [1 + K + D] times, where [K] is the number of keys of the graph and [D]
    the number of dependencies that [log] reports. *)
Theorem bfs_iterations_bound test dependencies changed :
  ∃ n : nat,
    (n ≤ 1 + size dependencies + count_dependencies dependencies)%nat
    ∧ bfs_step dependencies changed
        (bfs_iterate dependencies changed n (bfs_init test)) = None.
Proof.
  destruct (bfs_while_iterate dependencies changed (bfs_init test))
    as (n & Hn & Hstop & _).
  exists n. split; [|done].
  unfold bfs_measure, pending_weight, bfs_init in Hn. simpl in Hn.
  rewrite map_filter_id in Hn by (intros; apply not_elem_of_empty).
  unfold count_dependencies. rewrite <- length_map_to_list.
  assert (∀ l : list (string * list string),
            sum_list_with (λ kv, S (length kv.2)) l
            = (length l + sum_list_with (λ kv, length kv.2) l)%nat) as Hsum.
  { induction l as [|kv l IH]; simpl; [done|]. rewrite IH. lia. }
  rewrite Hsum in Hn. lia.
Qed.
